(** * The RPC handler: payload normalisation and the websocket bridge

    A shallow embedding of [rpc.go] and [stream.go].  Go strings are byte
    strings ([string]), [[]byte] is [list byte], maps are [gmap]s, and
    the collaborators the handler only consumes (router, client, codecs,
    the websocket library, the buffer pool) appear as the fields of one
    interface, [Externals], or as events of the relay machines. *)

From Stdlib Require Import ZArith Ascii String Strings.Byte Lia DecimalString.
From stdpp Require Import base gmap strings list.

Local Open Scope string_scope.
Local Open Scope list_scope.
Local Open Scope Z_scope.

Definition bytes := list byte.

(** ** The pieces of Go's [strings] package the handler calls *)

Module GoStrings.

(** [strings.IndexRune(s, c)] for a one-byte rune: the index of the first
    occurrence, or -1. *)
Fixpoint IndexRune (s : string) (c : ascii) : Z :=
  match s with
  | EmptyString => -1
  | String a s' =>
      if Ascii.eqb a c then 0
      else let i := IndexRune s' c in if i <? 0 then -1 else i + 1
  end.

(** The slice expression [s[:idx]]. *)
Definition slice_to (s : string) (idx : Z) : string :=
  substring 0 (Z.to_nat idx) s.

(** [strings.Contains(s, sub)]. *)
Fixpoint Contains (s sub : string) : bool :=
  String.prefix sub s ||
  match s with
  | EmptyString => false
  | String _ s' => Contains s' sub
  end.

(** [strings.Split(s, sep)] for a one-byte separator; the empty string
    splits into one empty field. *)
Fixpoint Split (s : string) (sep : ascii) : list string :=
  match s with
  | EmptyString => [EmptyString]
  | String a s' =>
      if Ascii.eqb a sep then EmptyString :: Split s' sep
      else match Split s' sep with
           | x :: xs => String a x :: xs
           | [] => [String a EmptyString]
           end
  end.

(** [strings.Join(v, sep)]. *)
Fixpoint Join (v : list string) (sep : string) : string :=
  match v with
  | [] => EmptyString
  | [x] => x
  | x :: xs => x +:+ sep +:+ Join xs sep
  end.

End GoStrings.
Import GoStrings.

(** ** Errors *)

Inductive error :=
| ClosedError (Code : Z) (Reason : string)        (* wsutil.ClosedError *)
| MicroError (Id : string) (Code : Z) (Detail : string) (* errors.Error *)
| ErrorString (msg : string).                     (* any other error *)

Inductive result (A : Type) :=
| Ok (a : A)
| Err (e : error).
Arguments Ok {A} a.
Arguments Err {A} e.

Definition InternalServerError (id detail : string) : error := MicroError id 500 detail.
Definition MethodNotAllowed (id detail : string) : error := MicroError id 405 detail.

(** ** Requests, services, endpoints *)

(** [r.Body]: the bytes the client sends, and the ceiling a
    [http.MaxBytesReader] wrapped around it enforces, if any. *)
Record Body := {
  body_data : bytes;
  body_limit : option Z;
}.

Record Request := {
  Method : string;
  Header : gmap string (list string);
  RawQuery : string;
  ReqBody : Body;
}.

(** [h.Get(key)]: the first value stored under [key], or the empty string.
    Every key the handler passes is already in canonical form. *)
Definition Get (h : gmap string (list string)) (key : string) : string :=
  match h !! key with
  | Some (v :: _) => v
  | _ => EmptyString
  end.

(** [registry.Endpoint], [registry.Service], [api.Endpoint], [api.Service]
    with the fields the handler reads. *)
Record Endpoint := {
  ep_Name : string;
  ep_Metadata : gmap string string;
}.

Record RegService := {
  Endpoints : list Endpoint;
}.

Record ApiEndpoint := {
  api_ep_Name : string;
}.

Record ApiService := {
  Name : string;
  SrvEndpoint : ApiEndpoint;
  Services : list RegService;
}.

(** ** Encoding classifier *)

Definition jsonCodecs : list string :=
  [ "application/grpc+json";
    "application/json";
    "application/json-rpc" ].

Definition protoCodecs : list string :=
  [ "application/grpc";
    "application/grpc+proto";
    "application/proto";
    "application/protobuf";
    "application/proto-rpc";
    "application/octet-stream" ].

Fixpoint hasCodec (ct : string) (codecs : list string) : bool :=
  match codecs with
  | [] => false
  | codec :: rest => if String.eqb ct codec then true else hasCodec ct rest
  end.

(** The charset strip both [ServeHTTP] and [serveWebsocket] open with:
    [if idx := strings.IndexRune(ct, ';'); idx >= 0 { ct = ct[:idx] }]. *)
Definition stripCharset (ct : string) : string :=
  let idx := IndexRune ct ";"%char in
  if 0 <=? idx then slice_to ct idx else ct.

Definition contentType (r : Request) : string :=
  stripCharset (Get (Header r) "Content-Type").

(** The wire family [ServeHTTP]'s [switch] selects and the content type the
    backend request is given. *)
Inductive Family := ProtoFamily | JSONFamily.

Definition classify (ct : string) : Family * string :=
  if hasCodec ct protoCodecs then (ProtoFamily, ct)
  else (JSONFamily,
        if negb (hasCodec ct jsonCodecs) then "application/json" else ct).

Definition classifyHeader (raw : string) : Family * string :=
  classify (stripCharset raw).

(** ** Framing op negotiation ([serveWebsocket], lines 41-60) *)

Definition OpCode := Z.
Definition OpContinuation : OpCode := 0.
Definition OpText : OpCode := 1.
Definition OpBinary : OpCode := 2.
Definition OpClose : OpCode := 8.
Definition OpPing : OpCode := 9.
Definition OpPong : OpCode := 10.

(** The loop over the values of the [Sec-WebSocket-Protocol] entry: both
    arms of its [switch] assign [ws.OpBinary]. *)
Definition protoLoop (proto : list string) (op : OpCode) : OpCode :=
  fold_left
    (fun op p => if String.eqb p "binary" then OpBinary else OpBinary)
    proto op.

(** The response header the loop fills in. *)
Definition protoHdr (proto : list string) : gmap string (list string) :=
  fold_left
    (fun hdr p =>
       if String.eqb p "binary"
       then <["Sec-WebSocket-Protocol" := ["binary"]]> hdr
       else hdr)
    proto ∅.

Definition wsOp (r : Request) : OpCode :=
  let ct := contentType r in
  let op := if String.eqb ct "application/json" then OpText else OpBinary in
  match Header r !! "Sec-WebSocket-Protocol" with
  | Some proto => protoLoop proto op
  | None => op
  end.

Definition wsHdr (r : Request) : gmap string (list string) :=
  match Header r !! "Sec-WebSocket-Protocol" with
  | Some proto => protoHdr proto
  | None => ∅
  end.

(** ** Collaborators

    Library code and services the handler calls but does not implement.
    [ToLower] and [TrimSpace] are Go's (Unicode-aware) string functions;
    the codecs read a request envelope from the body; [Call], [Upgrade],
    [Stream] and [Send] are the transport's answers; [logV] is
    [logger.V(logger.ErrorLevel)]. *)

Inductive StreamMsg :=
| RawMessage (payload : bytes)     (* *json.RawMessage *)
| Frame (Data : bytes).            (* *codec.Frame *)

Class Externals := {
  ToLower : string -> string;
  TrimSpace : string -> string;
  DefaultMaxRecvSize : Z;
  jsonrpc_ReadHeader : Body -> option error;
  jsonrpc_ReadBody : Body -> result bytes;
  protorpc_ReadHeader : Body -> option error;
  protorpc_ReadBody : Body -> result bytes;
  ParseForm : Request -> gmap string (list string);
  json_Marshal : gmap string string -> result bytes;
  qson_ToJSON : string -> result bytes;
  ParseDuration : string -> option Z;
  Call : string -> string -> string -> bytes -> result bytes;
  Upgrade : Request -> gmap string (list string) -> option error;
  Stream : string -> string -> string -> option Z -> option error;
  Send : StreamMsg -> option error;
  logV : bool;
}.

(** ** Body reading under a size ceiling, and the buffer pool *)

(** The error a size-limited body reports: the spec's [PayloadTooLarge]. *)
Definition PayloadTooLarge : error := ErrorString "http: request body too large".

(** Modelled from the spec: [http.MaxBytesReader] is Go's library, not
    under src/.  The spec has the body read "up to the size ceiling" and
    the read "fails with PayloadTooLarge if exceeded": wrapping a body
    records the ceiling, and reading a body longer than the ceiling yields
    the bytes up to it and the error. *)
Definition MaxBytesReader (b : Body) (n : Z) : Body :=
  {| body_data := body_data b;
     body_limit := Some (match body_limit b with
                         | Some m => Z.min m n
                         | None => n
                         end) |}.

(** [buf.ReadFrom(r.Body)] on an empty buffer: what the buffer holds
    afterwards, and the error. *)
Definition ReadFrom (b : Body) : bytes * option error :=
  match body_limit b with
  | Some n =>
      if n <? Z.of_nat (length (body_data b))
      then (take (Z.to_nat n) (body_data b), Some PayloadTooLarge)
      else (body_data b, None)
  | None => (body_data b, None)
  end.

(** [bufferPool.Get()] and [bufferPool.Put(buf)], as events. *)
Inductive PoolEvent := PoolGet | PoolPut.

(** Buffers checked out and not yet returned after a run of pool events. *)
Fixpoint outstanding (evs : list PoolEvent) (n : Z) : Z :=
  match evs with
  | [] => n
  | PoolGet :: evs' => outstanding evs' (n + 1)
  | PoolPut :: evs' => outstanding evs' (n - 1)
  end.

(** ** Payload extractor ([requestPayload], rpc.go) *)

Section Handler.
Context {E : Externals}.

(** The result, and the pool events of the call in order; the deferred
    [Put] runs on both returns of the body-reading arm. *)
Definition requestPayload (r : Request) : result bytes * list PoolEvent :=
  let ct := Get (Header r) "Content-Type" in
  if Contains ct "application/json-rpc" then
    match jsonrpc_ReadHeader (ReqBody r) with
    | Some err => (Err err, [])
    | None =>
        match jsonrpc_ReadBody (ReqBody r) with
        | Err err => (Err err, [])
        | Ok raw => (Ok raw, [])
        end
    end
  else if Contains ct "application/proto-rpc"
          || Contains ct "application/octet-stream" then
    match protorpc_ReadHeader (ReqBody r) with
    | Some err => (Err err, [])
    | None =>
        match protorpc_ReadBody (ReqBody r) with
        | Err err => (Err err, [])
        | Ok raw => (Ok raw, [])
        end
    end
  else if Contains ct "application/www-x-form-urlencoded" then
    let vals := (fun v => Join v ",") <$> ParseForm r in
    (json_Marshal vals, [])
  else if String.eqb (Method r) "GET" then
    if 0 <? Z.of_nat (String.length (RawQuery r))
    then (qson_ToJSON (RawQuery r), [])
    else (Ok [], [])
  else if String.eqb (Method r) "PATCH" || String.eqb (Method r) "POST" then
    match ReadFrom (ReqBody r) with
    | (_, Some err) => (Err err, [PoolGet; PoolPut])
    | (buf, None) => (Ok buf, [PoolGet; PoolPut])
    end
  else (Ok [], []).

(** ** The streaming gate ([isWebSocket], [isStream], stream.go) *)

Definition contains (r : Request) (key val : string) : bool :=
  existsb (fun v => String.eqb val (ToLower (TrimSpace v)))
          (Split (Get (Header r) key) ","%char).

Definition isWebSocket (r : Request) : bool :=
  if contains r "Connection" "upgrade" && contains r "Upgrade" "websocket"
  then true
  else false.

(** The body of the inner loop: skip on a name mismatch, otherwise test
    the metadata entry (a missing key reads as the empty string). *)
Definition streamEndpoint (srv : ApiService) (ep : Endpoint) : bool :=
  if negb (String.eqb (ep_Name ep) (api_ep_Name (SrvEndpoint srv))) then false
  else String.eqb (default EmptyString (ep_Metadata ep !! "stream")) "true".

Definition isStream (r : Request) (srv : ApiService) : bool :=
  if negb (isWebSocket r) then false
  else existsb (fun service => existsb (streamEndpoint srv) (Endpoints service))
               (Services srv).

(** ** Opening the bridge ([serveWebsocket] up to [go writeLoop]) *)

Inductive Action :=
| AWriteError (e : error)                       (* writeError(w, r, err) *)
| APool (ev : PoolEvent)
| ACall (service endpoint ct : string) (fam : Family) (request : bytes)
| AWriteResponse (rsp : bytes)                  (* writeResponse(w, r, rsp) *)
| ALog (e : error)                              (* logger.Error(ctx, err.Error()) *)
| AUpgrade (hdr : gmap string (list string))    (* upgrader.Upgrade(r, w) *)
| AStream (service endpoint ct : string)
          (request : option StreamMsg) (timeout : option Z)
| ASend (m : StreamMsg)                         (* stream.Send(request) *)
| AGoWriteLoop                                  (* go writeLoop(rw, stream) *)
| AConnClose.                                   (* the deferred conn.Close() *)

(** [if logger.V(logger.ErrorLevel) { logger.Error(ctx, err.Error()) }]. *)
Definition logError (e : error) : list Action :=
  if logV then [ALog e] else [].

(** What [serveWebsocket] has done when it either returns early or enters
    its receive loop; in the second case [ws_relaying] holds and the two
    relay directions run with framing op [ws_op]. *)
Record WsOpened := {
  ws_trace : list Action;
  ws_relaying : bool;
  ws_op : OpCode;
}.

Definition serveWebsocket (r : Request) (service : ApiService) : WsOpened :=
  let ct := contentType r in
  let t := Get (Header r) "Timeout" in
  let timeout :=
    if negb (String.eqb t EmptyString) then ParseDuration (t +:+ "s") else None in
  let op := wsOp r in
  let hdr := wsHdr r in
  let '(res, pool) := requestPayload r in
  let t0 := map APool pool in
  match res with
  | Err err =>
      {| ws_trace := t0 ++ logError err; ws_relaying := false; ws_op := op |}
  | Ok payload =>
      let t1 := t0 ++ [AUpgrade hdr] in
      match Upgrade r hdr with
      | Some err =>
          {| ws_trace := t1 ++ logError err; ws_relaying := false; ws_op := op |}
      | None =>
          (* var request interface{}; both arms of the switch assign it *)
          let request : option StreamMsg :=
            if String.eqb ct "application/json"
            then Some (RawMessage payload)
            else Some (Frame payload) in
          let ct := if String.eqb ct EmptyString then "application/json" else ct in
          let ep := api_ep_Name (SrvEndpoint service) in
          let t2 := t1 ++ [AStream (Name service) ep ct request timeout] in
          match Stream (Name service) ep ct timeout with
          | Some err =>
              {| ws_trace := t2 ++ logError err ++ [AConnClose];
                 ws_relaying := false; ws_op := op |}
          | None =>
              match request with
              | Some m =>                      (* if request != nil *)
                  match Send m with
                  | Some err =>
                      {| ws_trace := t2 ++ [ASend m] ++ logError err ++ [AConnClose];
                         ws_relaying := false; ws_op := op |}
                  | None =>
                      {| ws_trace := t2 ++ [ASend m; AGoWriteLoop];
                         ws_relaying := true; ws_op := op |}
                  end
              | None =>
                  {| ws_trace := t2 ++ [AGoWriteLoop];
                     ws_relaying := true; ws_op := op |}
              end
          end
      end
  end.

(** ** The entry point ([ServeHTTP], rpc.go) *)

Definition Router := Request -> ApiService + string.

Record Options := {
  MaxRecvSize : Z;
  OptRouter : option Router;
}.

Record rpcHandler := {
  opts : Options;
  s : option ApiService;
}.

(** [NewHandler] and [WithService], on options already built. *)
Definition NewHandler (options : Options) : rpcHandler :=
  {| opts := options; s := None |}.

Definition WithService (svc : ApiService) (options : Options) : rpcHandler :=
  {| opts := options; s := Some svc |}.

Inductive Outcome :=
| Rejected (e : error)            (* writeError before the dispatch *)
| Streamed (w : WsOpened)         (* serveWebsocket(cx, w, r, service, c) *)
| Unary (trace : list Action).    (* the standard call path *)

Definition bodySize (h : rpcHandler) : Z :=
  if 0 <? MaxRecvSize (opts h) then MaxRecvSize (opts h) else DefaultMaxRecvSize.

(** [r.Body = http.MaxBytesReader(w, r.Body, bsize)]. *)
Definition limitBody (h : rpcHandler) (r : Request) : Request :=
  {| Method := Method r; Header := Header r; RawQuery := RawQuery r;
     ReqBody := MaxBytesReader (ReqBody r) (bodySize h) |}.

(** Service resolution: the service given at construction, else the
    router's, else no route. *)
Definition resolve (h : rpcHandler) (r : Request) : result ApiService :=
  match s h with
  | Some svc => Ok svc
  | None =>
      match OptRouter (opts h) with
      | Some route =>
          match route r with
          | inr msg => Err (InternalServerError "go.micro.api" msg)
          | inl svc => Ok svc
          end
      | None => Err (InternalServerError "go.micro.api" "no route found")
      end
  end.

(** [r.Method != "GET" && (h.opts.Router != nil && r.Method != "POST")]. *)
Definition methodRejected (h : rpcHandler) (r : Request) : bool :=
  negb (String.eqb (Method r) "GET")
  && (bool_decide (is_Some (OptRouter (opts h)))
      && negb (String.eqb (Method r) "POST")).

Definition unaryCall (r : Request) (service : ApiService) : list Action :=
  let ct := contentType r in
  let '(res, pool) := requestPayload r in
  let t0 := map APool pool in
  match res with
  | Err err => t0 ++ [AWriteError err]
  | Ok br =>
      let '(fam, ct) := classify ct in
      let request := if 0 <? Z.of_nat (length br) then br else [] in
      let ep := api_ep_Name (SrvEndpoint service) in
      let t1 := t0 ++ [ACall (Name service) ep ct fam request] in
      match Call (Name service) ep ct request with
      | Err err => t1 ++ [AWriteError err]
      | Ok rsp => t1 ++ [AWriteResponse rsp]
      end
  end.

Definition ServeHTTP (h : rpcHandler) (r0 : Request) : Outcome :=
  let r := limitBody h r0 in
  match resolve h r with
  | Err err => Rejected err
  | Ok service =>
      if methodRejected h r
      then Rejected (MethodNotAllowed "go.micro.api" "method not allowed")
      else if isStream r service then Streamed (serveWebsocket r service)
      else Unary (unaryCall r service)
  end.

End Handler.

(** ** The two relay directions

    [writeLoop] (client to backend) and the receive loop that ends
    [serveWebsocket] (backend to client) run concurrently.  Each is a
    machine with a program counter: at its [select], or blocked in its
    read, or returned.  An event is either the environment acting (a
    context ends, the connection or the response channel has a new read
    result ready) or one of the relays being scheduled.  A scheduled relay
    at its [select] takes the [select]'s decision; a scheduled relay
    blocked in its read proceeds only if a read result is ready. *)

Definition StatusNormalClosure : Z := 1000.
Definition StatusGoingAway : Z := 1001.
Definition StatusNoStatusRcvd : Z := 1005.

(** What [wsutil.ReadClientData(rw)] returns. *)
Inductive ConnRead :=
| CFrame (buf : bytes) (op : OpCode)
| CErr (e : error).

(** What [rsp.Read()] returns; the loop looks at an error only through its
    message. *)
Inductive RspRead :=
| BChunk (buf : bytes)
| BErr (msg : string).

Inductive Pc := AtSelect | InRead | Returned.

(** Upstream relay: reads begun, read results consumed, [stream.Send]
    calls and [stream.Close] calls so far, errors logged. *)
Record Up := {
  up_pc : Pc;
  up_reads : nat;
  up_got : list ConnRead;
  up_sends : list StreamMsg;
  up_closes : nat;
  up_log : list error;
}.

(** Downstream relay: reads begun, messages written to the connection,
    [conn.Close] calls, errors logged. *)
Record Down := {
  down_pc : Pc;
  down_reads : nat;
  down_written : list (OpCode * bytes);
  down_conn_closes : nat;
  down_log : list error;
}.

(** The answers the connection gives the downstream relay in one step:
    [wsutil.WriteServerMessage], [rw.Flush], [conn.Close]. *)
Record ConnIO := {
  write_err : option error;
  flush_err : option error;
  close_err : option error;
}.

Inductive Event :=
| EvReqCancel                      (* ctx.Done() becomes ready *)
| EvStreamCancel                   (* stream.Context().Done() becomes ready *)
| EvConn (x : ConnRead)            (* the connection has a read result ready *)
| EvRsp (x : RspRead)              (* the response channel has one ready *)
| EvUp (send : option error)       (* writeLoop runs; what Send would answer *)
| EvDown (io : ConnIO).            (* the receive loop runs *)

Record Session := {
  conn_in : list ConnRead;
  rsp_in : list RspRead;
  req_done : bool;
  stream_done : bool;
  log_on : bool;
  op : OpCode;
  up : Up;
  down : Down;
}.

Definition logged (on : bool) (e : error) (log : list error) : list error :=
  if on then log ++ [e] else log.

(** *** [writeLoop] *)

(** Any [return] of [writeLoop]: the deferred [stream.Close()] runs. *)
Definition up_return (log : list error) (u : Up) : Up :=
  {| up_pc := Returned; up_reads := up_reads u; up_got := up_got u;
     up_sends := up_sends u; up_closes := S (up_closes u); up_log := log |}.

(** The [select]: return if the stream's context is done, else call
    [wsutil.ReadClientData]. *)
Definition up_select (done : bool) (u : Up) : Up :=
  if done then up_return (up_log u) u
  else {| up_pc := InRead; up_reads := S (up_reads u); up_got := up_got u;
          up_sends := up_sends u; up_closes := up_closes u; up_log := up_log u |}.

Definition benignClose (code : Z) : bool :=
  (code =? StatusGoingAway)
  || ((code =? StatusNormalClosure) || (code =? StatusNoStatusRcvd)).

Definition isData (op : OpCode) : bool := (op =? OpText) || (op =? OpBinary).

(** The rest of the iteration, once the read has returned [x]. *)
Definition up_read (on : bool) (send : option error) (x : ConnRead) (u : Up) : Up :=
  let u := {| up_pc := up_pc u; up_reads := up_reads u; up_got := up_got u ++ [x];
              up_sends := up_sends u; up_closes := up_closes u; up_log := up_log u |} in
  match x with
  | CErr err =>
      match err with
      | ClosedError code _ =>
          if benignClose code then up_return (up_log u) u
          else up_return (logged on err (up_log u)) u
      | _ => up_return (logged on err (up_log u)) u
      end
  | CFrame buf op =>
      if negb (isData op) then
        (* not relevant: continue *)
        {| up_pc := AtSelect; up_reads := up_reads u; up_got := up_got u;
           up_sends := up_sends u; up_closes := up_closes u; up_log := up_log u |}
      else
        let u := {| up_pc := up_pc u; up_reads := up_reads u; up_got := up_got u;
                    up_sends := up_sends u ++ [Frame buf];
                    up_closes := up_closes u; up_log := up_log u |} in
        match send with
        | Some err => up_return (logged on err (up_log u)) u
        | None =>
            {| up_pc := AtSelect; up_reads := up_reads u; up_got := up_got u;
               up_sends := up_sends u; up_closes := up_closes u; up_log := up_log u |}
        end
  end.

(** *** The receive loop of [serveWebsocket] *)

(** Any [return] of the loop: the deferred [conn.Close()] runs, and its
    error is logged. *)
Definition down_return (on : bool) (io : ConnIO) (log : list error) (d : Down) : Down :=
  {| down_pc := Returned; down_reads := down_reads d;
     down_written := down_written d;
     down_conn_closes := S (down_conn_closes d);
     down_log := match close_err io with
                 | Some err => logged on err log
                 | None => log
                 end |}.

Definition down_select (on : bool) (io : ConnIO) (req_done stream_done : bool) (d : Down) : Down :=
  if req_done || stream_done then down_return on io (down_log d) d
  else {| down_pc := InRead; down_reads := S (down_reads d);
          down_written := down_written d;
          down_conn_closes := down_conn_closes d; down_log := down_log d |}.

Definition down_read (on : bool) (io : ConnIO) (op : OpCode) (x : RspRead) (d : Down) : Down :=
  match x with
  | BErr msg =>
      if Contains msg "context canceled" then down_return on io (down_log d) d
      else down_return on io (logged on (ErrorString msg) (down_log d)) d
  | BChunk buf =>
      match write_err io with
      | Some err => down_return on io (logged on err (down_log d)) d
      | None =>
          let d := {| down_pc := down_pc d; down_reads := down_reads d;
                      down_written := down_written d ++ [(op, buf)];
                      down_conn_closes := down_conn_closes d;
                      down_log := down_log d |} in
          match flush_err io with
          | Some err => down_return on io (logged on err (down_log d)) d
          | None =>
              {| down_pc := AtSelect; down_reads := down_reads d;
                 down_written := down_written d;
                 down_conn_closes := down_conn_closes d;
                 down_log := down_log d |}
          end
      end
  end.

(** *** The session *)

Definition with_up (s : Session) (q : list ConnRead) (u : Up) : Session :=
  {| conn_in := q; rsp_in := rsp_in s; req_done := req_done s;
     stream_done := stream_done s; log_on := log_on s; op := op s;
     up := u; down := down s |}.

Definition with_down (s : Session) (q : list RspRead) (d : Down) : Session :=
  {| conn_in := conn_in s; rsp_in := q; req_done := req_done s;
     stream_done := stream_done s; log_on := log_on s; op := op s;
     up := up s; down := d |}.

Definition step (s : Session) (e : Event) : Session :=
  match e with
  | EvReqCancel =>
      {| conn_in := conn_in s; rsp_in := rsp_in s; req_done := true;
         stream_done := stream_done s; log_on := log_on s; op := op s;
         up := up s; down := down s |}
  | EvStreamCancel =>
      {| conn_in := conn_in s; rsp_in := rsp_in s; req_done := req_done s;
         stream_done := true; log_on := log_on s; op := op s;
         up := up s; down := down s |}
  | EvConn x => with_up s (conn_in s ++ [x]) (up s)
  | EvRsp x => with_down s (rsp_in s ++ [x]) (down s)
  | EvUp send =>
      match up_pc (up s) with
      | AtSelect => with_up s (conn_in s) (up_select (stream_done s) (up s))
      | InRead =>
          match conn_in s with
          | [] => s                                   (* still blocked *)
          | x :: q => with_up s q (up_read (log_on s) send x (up s))
          end
      | Returned => s
      end
  | EvDown io =>
      match down_pc (down s) with
      | AtSelect =>
          with_down s (rsp_in s)
            (down_select (log_on s) io (req_done s) (stream_done s) (down s))
      | InRead =>
          match rsp_in s with
          | [] => s                                   (* still blocked *)
          | x :: q => with_down s q (down_read (log_on s) io (op s) x (down s))
          end
      | Returned => s
      end
  end.

Definition run (evs : list Event) (s : Session) : Session := fold_left step evs s.

(** The session as [serveWebsocket] leaves it after [go writeLoop]: both
    relays about to take their first [select]. *)
Definition startSession (on : bool) (o : OpCode) : Session :=
  {| conn_in := []; rsp_in := []; req_done := false; stream_done := false;
     log_on := on; op := o;
     up := {| up_pc := AtSelect; up_reads := 0; up_got := [];
              up_sends := []; up_closes := 0; up_log := [] |};
     down := {| down_pc := AtSelect; down_reads := 0; down_written := [];
                down_conn_closes := 0; down_log := [] |} |}.

(** The session a bridge opened by [serveWebsocket] runs, if it got as far
    as relaying. *)
Definition bridgeSession {E : Externals} (w : WsOpened) : option Session :=
  if ws_relaying w then Some (startSession logV (ws_op w)) else None.

(** The read results the connection delivered during a run, and the data
    frames among read results. *)
Definition arrivals (evs : list Event) : list ConnRead :=
  flat_map (fun e => match e with EvConn x => [x] | _ => [] end) evs.

Definition dataFrames (xs : list ConnRead) : list StreamMsg :=
  flat_map (fun x => match x with
                     | CFrame buf o => if isData o then [Frame buf] else []
                     | CErr _ => []
                     end) xs.

(** ** The query-string converter, and a concrete set of collaborators *)

Definition dquote : string := String (ascii_of_nat 34%nat) EmptyString.

(** The text before the first [=] of a pair, and the text after it. *)
Definition splitPair (p : string) : string * string :=
  let i := IndexRune p "="%char in
  if 0 <=? i
  then (slice_to p i, substring (S (Z.to_nat i)) (String.length p) p)
  else (p, EmptyString).

Definition jsonMember (kv : string * string) : string :=
  dquote +:+ fst kv +:+ dquote +:+ ":" +:+ dquote +:+ snd kv +:+ dquote.

(** Modelled from the spec: [qson.ToJSON] belongs to the package
    github.com/joncalhoun/qson, which is not under src/.  The spec has the
    query string converted into an equivalent structured-text payload and
    gives the pairs a=1 and b=2 as an object with the members a and b
    holding the strings 1 and 2: one member per [&]-separated pair, named
    by the text before the pair's first [=], holding the text after it as
    a string. *)
Definition spec_qson_ToJSON (q : string) : result bytes :=
  Ok (list_byte_of_string
        ("{" +:+ Join (map (fun p => jsonMember (splitPair p)) (Split q "&"%char)) ","
         +:+ "}")).

(** ASCII versions of [strings.ToLower] and [strings.TrimSpace]; Go's agree
    with them on ASCII input. *)
Definition asciiLower (c : ascii) : ascii :=
  let n := nat_of_ascii c in
  if (65 <=? n)%nat && (n <=? 90)%nat then ascii_of_nat (n + 32) else c.

Fixpoint asciiToLower (s : string) : string :=
  match s with
  | EmptyString => EmptyString
  | String c s' => String (asciiLower c) (asciiToLower s')
  end.

Definition asciiSpace (c : ascii) : bool :=
  let n := nat_of_ascii c in
  (n =? 32)%nat || ((9 <=? n)%nat && (n <=? 13)%nat).

Fixpoint trimLeft (s : string) : string :=
  match s with
  | EmptyString => EmptyString
  | String c s' => if asciiSpace c then trimLeft s' else s
  end.

Fixpoint trimRight (s : string) : string :=
  match s with
  | EmptyString => EmptyString
  | String c s' =>
      match trimRight s' with
      | EmptyString => if asciiSpace c then EmptyString else String c EmptyString
      | t => String c t
      end
  end.

Definition asciiTrimSpace (s : string) : string := trimRight (trimLeft s).

(** Collaborators that never fail: the codecs hand the body over, the
    backend echoes the request, upgrade, stream and send succeed, errors
    are logged. *)
Definition plainExternals : Externals :=
  {| ToLower := asciiToLower;
     TrimSpace := asciiTrimSpace;
     DefaultMaxRecvSize := 104857600;
     jsonrpc_ReadHeader := fun _ => None;
     jsonrpc_ReadBody := fun b => Ok (body_data b);
     protorpc_ReadHeader := fun _ => None;
     protorpc_ReadBody := fun b => Ok (body_data b);
     ParseForm := fun _ => ∅;
     json_Marshal := fun _ => Ok [];
     qson_ToJSON := spec_qson_ToJSON;
     ParseDuration := fun _ => None;
     Call := fun _ _ _ request => Ok request;
     Upgrade := fun _ _ => None;
     Stream := fun _ _ _ _ => None;
     Send := fun _ => None;
     logV := true |}.

(** Sample inputs. *)
Definition mkRequest (m : string) (hdr : list (string * list string))
    (q : string) (b : bytes) : Request :=
  {| Method := m; Header := list_to_map hdr; RawQuery := q;
     ReqBody := {| body_data := b; body_limit := None |} |}.

Definition wsHeaders : list (string * list string) :=
  [ ("Connection", ["Upgrade"]); ("Upgrade", ["websocket"]) ].

Definition streamingService : ApiService :=
  {| Name := "greeter";
     SrvEndpoint := {| api_ep_Name := "Greeter.Stream" |};
     Services :=
       [ {| Endpoints :=
              [ {| ep_Name := "Greeter.Hello"; ep_Metadata := ∅ |};
                {| ep_Name := "Greeter.Stream";
                   ep_Metadata := {[ "stream" := "true" ]} |} ] |} ] |}.

Definition unaryService : ApiService :=
  {| Name := "greeter";
     SrvEndpoint := {| api_ep_Name := "Greeter.Hello" |};
     Services := Services streamingService |}.

Definition noOptions : Options := {| MaxRecvSize := 0; OptRouter := None |}.

(** ** What the spec says of the framing op

    The claim's wording: binary when a protocol hint asks for binary,
    otherwise text exactly for the structured-text default. *)
Definition spec_wsOp (r : Request) : OpCode :=
  if existsb (fun p => String.eqb p "binary")
             (default [] (Header r !! "Sec-WebSocket-Protocol"))
  then OpBinary
  else if String.eqb (contentType r) "application/json" then OpText
  else OpBinary.

(** ** Vocabulary of the statements *)

(** A header carries [val]: some comma-separated field of its first value
    is [val] once trimmed and lower-cased. *)
Definition headerHas {E : Externals} (r : Request) (key val : string) : Prop :=
  exists v, In v (Split (Get (Header r) key) ","%char)
            /\ ToLower (TrimSpace v) = val.

(** Some endpoint of the service's backends has exactly the resolved
    endpoint's name and the metadata entry [stream] set to [true]. *)
Definition streamCapable (srv : ApiService) : Prop :=
  exists service ep,
    In service (Services srv) /\ In ep (Endpoints service)
    /\ ep_Name ep = api_ep_Name (SrvEndpoint srv)
    /\ ep_Metadata ep !! "stream" = Some "true".

(** The content types [requestPayload] decodes as an envelope or a form. *)
Definition envelopeOrForm (ct : string) : bool :=
  Contains ct "application/json-rpc"
  || (Contains ct "application/proto-rpc"
      || Contains ct "application/octet-stream")
  || Contains ct "application/www-x-form-urlencoded".

Definition setMethod (r : Request) (m : string) : Request :=
  {| Method := m; Header := Header r; RawQuery := RawQuery r;
     ReqBody := ReqBody r |}.

(** The seventeen bytes of the object with member a holding the string 1
    and member b holding the string 2. *)
Definition abObject : bytes :=
  [ x7b; x22; x61; x22; x3a; x22; x31; x22; x2c;
    x22; x62; x22; x3a; x22; x32; x22; x7d ].

(** Actions that hand a payload to the backend. *)
Definition forwards (a : Action) : bool :=
  match a with
  | ACall _ _ _ _ _ | AStream _ _ _ _ _ | ASend _ => true
  | _ => false
  end.

Definition outcomeTrace (o : Outcome) : list Action :=
  match o with
  | Rejected e => [AWriteError e]
  | Streamed w => ws_trace w
  | Unary t => t
  end.

(** [stream.Close] has been called once if [writeLoop] has returned and
    not at all otherwise. *)
Definition closedOnce (u : Up) : Prop :=
  up_closes u = match up_pc u with Returned => 1%nat | _ => 0%nat end.

(** A frame as the connection's reader returns it, and the schedule that
    runs [writeLoop] twice per frame: once to start a read, once to take
    the frame. *)
Definition toRead (f : bytes * OpCode) : ConnRead := CFrame (fst f) (snd f).

Definition twicePerFrame (frames : list (bytes * OpCode)) : list Event :=
  flat_map (fun _ => [EvUp None; EvUp None]) frames.

(** ** Response writers ([writeError], [writeResponse], rpc.go) *)

(** [*errors.Error] as [errors.Parse] returns it. *)
Record ParsedError := {
  pe_Id : string;
  pe_Code : Z;
  pe_Detail : string;
  pe_Status : string;
}.

(** What the writers consume: [err.Error()], [errors.Parse], [ce.Error()],
    the answer of [w.Write], and [logger.V(logger.ErrorLevel,
    logger.DefaultLogger)]. *)
Class Responder := {
  errorText : error -> string;
  errors_Parse : string -> ParsedError;
  errorJSON : ParsedError -> string;
  Write : bytes -> option error;
  wlogV : bool;
}.

(** The calls a writer makes on the [http.ResponseWriter] and the logger,
    in order.  [WLog] carries the value handed to [logger.Error], which
    may be a nil error. *)
Inductive WCall :=
| WWriteHeader (code : Z)              (* w.WriteHeader(code) *)
| WSet (key value : string)            (* w.Header().Set(key, value) *)
| WWrite (b : bytes)                   (* w.Write(b) *)
| WLog (werr : option error).          (* logger.Error(werr) *)

(** [strconv.Itoa] on a length. *)
Definition Itoa (n : Z) : string := NilZero.string_of_int (Z.to_int n).

(** The four header assignments both writers make for a grpc content
    type. *)
Definition grpcTrailers (r : Request) (status message : string) : list WCall :=
  if Contains (Get (Header r) "Content-Type") "application/grpc"
  then [ WSet "Trailer" "grpc-status";
         WSet "Trailer" "grpc-message";
         WSet "grpc-status" status;
         WSet "grpc-message" message ]
  else [].

Section Writers.
Context {W : Responder}.

(** [err] is a non-nil error (its [Error] method is called first), so the
    closing [if err != nil] always holds and [werr] is logged whatever it
    is. *)
Definition writeError (r : Request) (err : error) : list WCall :=
  let ce := errors_Parse (errorText err) in
  let ce :=
    if pe_Code ce =? 0
    then {| pe_Id := "go.micro.api"; pe_Code := 500;
            pe_Detail := "error during request: " +:+ pe_Detail ce;
            pe_Status := "Internal Server Error" |}
    else ce in
  let body := list_byte_of_string (errorJSON ce) in
  [WWriteHeader (pe_Code ce)]
  ++ [WSet "Content-Type" "application/json"]
  ++ grpcTrailers r "13" (pe_Detail ce)
  ++ [WWrite body]
  ++ (if wlogV then [WLog (Write body)] else []).

Definition writeResponse (r : Request) (rsp : bytes) : list WCall :=
  [ WSet "Content-Type" (Get (Header r) "Content-Type");
    WSet "Content-Length" (Itoa (Z.of_nat (length rsp))) ]
  ++ grpcTrailers r "0" EmptyString
  ++ [WWrite rsp]
  ++ match Write rsp with
     | Some err => if wlogV then [WLog (Some err)] else []
     | None => []
     end.

(** The writer calls behind one action of [ServeHTTP], and behind its
    whole outcome. *)
Definition respond (r : Request) (a : Action) : list WCall :=
  match a with
  | AWriteError e => writeError r e
  | AWriteResponse rsp => writeResponse r rsp
  | _ => []
  end.

Definition httpCalls (r : Request) (o : Outcome) : list WCall :=
  match o with
  | Rejected e => writeError r e
  | Streamed _ => []
  | Unary t => flat_map (respond r) t
  end.

End Writers.

(** The value a run of writer calls leaves under a header key ([Set]
    replaces), the status passed to [WriteHeader], the bodies written. *)
Definition lastSet (key : string) (calls : list WCall) : option string :=
  fold_left (fun acc c => match c with
                          | WSet k v => if String.eqb k key then Some v else acc
                          | _ => acc
                          end) calls None.

Definition statusOf (calls : list WCall) : list Z :=
  flat_map (fun c => match c with WWriteHeader n => [n] | _ => [] end) calls.

Definition bodyOf (calls : list WCall) : list bytes :=
  flat_map (fun c => match c with WWrite b => [b] | _ => [] end) calls.

Definition isSet (c : WCall) : bool :=
  match c with WSet _ _ => true | _ => false end.

(** ** Further vocabulary *)

Definition setQuery (r : Request) (q : string) : Request :=
  {| Method := Method r; Header := Header r; RawQuery := q;
     ReqBody := ReqBody r |}.

(** Actions that answer the HTTP request, and backend calls. *)
Definition answers (a : Action) : bool :=
  match a with
  | AWriteError _ | AWriteResponse _ => true
  | _ => false
  end.

Definition isCall (a : Action) : bool :=
  match a with ACall _ _ _ _ _ => true | _ => false end.

(** The chunks among response-channel results, the results the channel
    delivered during a run, and the events the upstream relay can see. *)
Definition chunks (xs : list RspRead) : list bytes :=
  flat_map (fun x => match x with BChunk b => [b] | BErr _ => [] end) xs.

Definition rspArrivals (evs : list Event) : list RspRead :=
  flat_map (fun e => match e with EvRsp x => [x] | _ => [] end) evs.

Definition upEvent (e : Event) : bool :=
  match e with
  | EvStreamCancel | EvConn _ | EvUp _ => true
  | _ => false
  end.

(** [conn.Close] has been called once if the receive loop has returned and
    not at all otherwise. *)
Definition connClosedOnce (d : Down) : Prop :=
  down_conn_closes d = match down_pc d with Returned => 1%nat | _ => 0%nat end.

(** A responder for examples: error texts that are not structured errors
    (parsed with code 0 and the text as detail), writes that succeed,
    logging enabled. *)
Definition plainResponder : Responder :=
  {| errorText := fun e => match e with
                           | ClosedError _ reason => reason
                           | MicroError _ _ detail => detail
                           | ErrorString msg => msg
                           end;
     errors_Parse := fun text => {| pe_Id := EmptyString; pe_Code := 0;
                                    pe_Detail := text; pe_Status := EmptyString |};
     errorJSON := fun ce => pe_Detail ce;
     Write := fun _ => None;
     wlogV := true |}.

(** The pieces of the backend request [serveWebsocket] builds: the wrapper
    around the payload, the declared content type, the call timeout. *)
Definition wsRequest (r : Request) (payload : bytes) : StreamMsg :=
  if String.eqb (contentType r) "application/json"
  then RawMessage payload else Frame payload.

Definition wsContentType (r : Request) : string :=
  if String.eqb (contentType r) EmptyString then "application/json"
  else contentType r.

Definition wsTimeout {E : Externals} (r : Request) : option Z :=
  if negb (String.eqb (Get (Header r) "Timeout") EmptyString)
  then ParseDuration (Get (Header r) "Timeout" +:+ "s")
  else None.

(** Two sessions the upstream relay cannot tell apart. *)
Definition upEq (s t : Session) : Prop :=
  up s = up t /\ conn_in s = conn_in t /\ stream_done s = stream_done t
  /\ log_on s = log_on t.

(** While a relay runs its log is empty; once it has returned it holds at
    most one error (the receive loop: at most two), none with logging
    off. *)
Definition quietWhileRunning (s : Session) : Prop :=
  (up_pc (up s) <> Returned -> up_log (up s) = [])
  /\ (length (up_log (up s)) <= 1)%nat
  /\ (down_pc (down s) <> Returned -> down_log (down s) = [])
  /\ (length (down_log (down s)) <= 2)%nat
  /\ (log_on s = false -> up_log (up s) = [] /\ down_log (down s) = []).

(** The schedule that runs the receive loop twice per chunk, with a
    connection that accepts every write. *)
Definition goodIO : ConnIO :=
  {| write_err := None; flush_err := None; close_err := None |}.

Definition twicePerChunk (bufs : list bytes) : list Event :=
  flat_map (fun _ => [EvDown goodIO; EvDown goodIO]) bufs.

(** * Properties *)

(** ** Strings *)

Lemma IndexRune_lower (s : string) (c : ascii) : -1 <= IndexRune s c.
Proof.
  induction s as [|a s IH]; simpl; [lia|].
  destruct (Ascii.eqb a c); [lia|].
  destruct (IndexRune s c <? 0) eqn:Hlt; lia.
Qed.

Lemma IndexRune_found (p q : string) (c : ascii) :
  IndexRune p c = -1 ->
  IndexRune (p +:+ String c q) c = Z.of_nat (String.length p).
Proof.
  induction p as [|a p IH].
  - intros _. simpl. now rewrite Ascii.eqb_refl.
  - change (IndexRune (String a p +:+ String c q) c)
      with (if Ascii.eqb a c then 0
            else let i := IndexRune (p +:+ String c q) c in
                 if i <? 0 then -1 else i + 1).
    change (String.length (String a p)) with (S (String.length p)).
    cbn [IndexRune]. cbv zeta.
    destruct (Ascii.eqb a c); [discriminate|].
    destruct (IndexRune p c <? 0) eqn:Hlt.
    + intros _. rewrite IH.
      * destruct (Z.of_nat (String.length p) <? 0) eqn:Hn; lia.
      * pose proof (IndexRune_lower p c). lia.
    + pose proof (IndexRune_lower p c). lia.
Qed.

Lemma substring_prefix (p q : string) :
  substring 0 (String.length p) (p +:+ q) = p.
Proof.
  induction p as [|a p IH]; simpl.
  - now destruct q.
  - now rewrite IH.
Qed.

Lemma stripCharset_plain (ct : string) :
  IndexRune ct ";"%char = -1 -> stripCharset ct = ct.
Proof. unfold stripCharset. intros ->. reflexivity. Qed.

Lemma stripCharset_suffix (p q : string) :
  IndexRune p ";"%char = -1 -> stripCharset (p +:+ String ";"%char q) = p.
Proof.
  intros Hp. unfold stripCharset, slice_to.
  rewrite (IndexRune_found p q _ Hp).
  destruct (0 <=? Z.of_nat (String.length p)) eqn:Hle.
  2:{ apply Z.leb_gt in Hle. lia. }
  rewrite Nat2Z.id. apply substring_prefix.
Qed.

Lemma hasCodec_In (ct : string) (codecs : list string) :
  hasCodec ct codecs = true <-> In ct codecs.
Proof.
  induction codecs as [|c cs IH]; simpl; [easy|].
  destruct (String.eqb ct c) eqn:Heq.
  - apply String.eqb_eq in Heq. subst. tauto.
  - apply String.eqb_neq in Heq. rewrite IH. split; [tauto|].
    intros [->|H]; [contradiction|assumption].
Qed.

(** ** C5: the classifier sees the content type without its parameters *)



(** ** C3: the framing op *)

Lemma protoLoop_cons (p : string) (ps : list string) (o : OpCode) :
  protoLoop (p :: ps) o = OpBinary.
Proof.
  unfold protoLoop. simpl.
  assert (Hp : (if String.eqb p "binary" then OpBinary else OpBinary) = OpBinary)
    by now destruct (String.eqb p "binary").
  rewrite Hp. clear Hp.
  induction ps as [|x xs IH]; simpl; [reflexivity|].
  now destruct (String.eqb x "binary").
Qed.



(** ** C4: the first frame *)

(** Whatever the payload, [request] is assigned before the guard
    [request != nil] is reached: a bridge that starts relaying has sent a
    first frame. *)
Lemma serveWebsocket_relaying_sent {E : Externals} (r : Request) (srv : ApiService) :
  ws_relaying (serveWebsocket r srv) = true ->
  exists m, In (ASend m) (ws_trace (serveWebsocket r srv)).
Proof.
  unfold serveWebsocket.
  destruct (requestPayload r) as [[payload|err] pool]; simpl; [|discriminate].
  destruct (Upgrade r (wsHdr r)); simpl; [discriminate|].
  destruct (Stream _ _ _ _); simpl; [discriminate|].
  destruct (String.eqb (contentType r) "application/json");
    match goal with |- context [Send ?m] => destruct (Send m) end;
    simpl; try discriminate; intros _; eexists;
    rewrite !in_app_iff; simpl; eauto 10.
Qed.

(** C4 fails on the code.  An upgrade request with no query string and no
    body has the empty payload, and the bridge still sends a first frame,
    an empty one, before [writeLoop] starts. *)
Theorem first_frame_sent_without_payload :
  let r := mkRequest "GET" (("Content-Type", ["application/json"]) :: wsHeaders)
             EmptyString [] in
  let h := WithService streamingService noOptions in
  @requestPayload plainExternals (@limitBody plainExternals h r) = (Ok [], [])
  /\ @ServeHTTP plainExternals h r =
     Streamed {| ws_trace :=
                   [ AUpgrade ∅;
                     AStream "greeter" "Greeter.Stream" "application/json"
                       (Some (RawMessage [])) None;
                     ASend (RawMessage []);
                     AGoWriteLoop ];
                 ws_relaying := true;
                 ws_op := OpText |}.
Proof. split; vm_compute; reflexivity. Qed.

(** ** C6: the streaming gate *)

Section Gate.
Context {E : Externals}.

Lemma contains_spec (r : Request) (key val : string) :
  contains r key val = true <-> headerHas r key val.
Proof.
  unfold contains, headerHas. rewrite existsb_exists.
  split; intros (v & Hin & Hv); exists v; split; auto.
  - apply String.eqb_eq in Hv. auto.
  - apply String.eqb_eq. auto.
Qed.

Lemma isWebSocket_spec (r : Request) :
  isWebSocket r = true
  <-> headerHas r "Connection" "upgrade" /\ headerHas r "Upgrade" "websocket".
Proof.
  unfold isWebSocket. rewrite <- !contains_spec.
  destruct (contains r "Connection" "upgrade"), (contains r "Upgrade" "websocket");
    simpl; intuition discriminate.
Qed.

Lemma streamEndpoint_spec (srv : ApiService) (ep : Endpoint) :
  streamEndpoint srv ep = true
  <-> ep_Name ep = api_ep_Name (SrvEndpoint srv)
      /\ ep_Metadata ep !! "stream" = Some "true".
Proof.
  unfold streamEndpoint.
  destruct (String.eqb (ep_Name ep) (api_ep_Name (SrvEndpoint srv))) eqn:Hn; simpl.
  - apply String.eqb_eq in Hn.
    destruct (ep_Metadata ep !! "stream") as [v|] eqn:Hm; simpl.
    + rewrite String.eqb_eq. split.
      * intros ->. auto.
      * intros [_ Hv]. now inversion Hv.
    + split; [discriminate|]. intros [_ Hv]. discriminate.
  - apply String.eqb_neq in Hn. split; [discriminate|]. intros [Hv _]. contradiction.
Qed.

Lemma isStream_spec (r : Request) (srv : ApiService) :
  isStream r srv = true
  <-> headerHas r "Connection" "upgrade" /\ headerHas r "Upgrade" "websocket"
      /\ streamCapable srv.
Proof.
  unfold isStream, streamCapable.
  destruct (isWebSocket r) eqn:Hws; simpl.
  - apply isWebSocket_spec in Hws. destruct Hws as [Hc Hu].
    rewrite existsb_exists. split.
    + intros (service & Hs & Hex). apply existsb_exists in Hex.
      destruct Hex as (ep & Hep & Hse). apply streamEndpoint_spec in Hse.
      repeat split; auto. exists service, ep. tauto.
    + intros (_ & _ & service & ep & Hs & Hep & Hn & Hm).
      exists service. split; [assumption|].
      apply existsb_exists. exists ep. split; [assumption|].
      apply streamEndpoint_spec. auto.
  - split; [discriminate|]. intros (Hc & Hu & _).
    assert (isWebSocket r = true) by (apply isWebSocket_spec; auto). congruence.
Qed.

Lemma isStream_limitBody (h : rpcHandler) (r : Request) (srv : ApiService) :
  isStream (limitBody h r) srv = isStream r srv.
Proof. reflexivity. Qed.

(** C6.  [isStream] holds exactly when the request has an [upgrade] field
    in its [Connection] header and a [websocket] field in its [Upgrade]
    header and some endpoint named exactly as the resolved endpoint has
    metadata [stream] equal to [true].  For a request that passes service
    resolution and the method check, [ServeHTTP] enters [serveWebsocket]
    exactly under that condition, and an endpoint without the attribute
    sends even a valid upgrade request down the unary path. *)
Theorem stream_gate (h : rpcHandler) (r : Request) (srv : ApiService) :
  (isStream r srv = true
   <-> headerHas r "Connection" "upgrade" /\ headerHas r "Upgrade" "websocket"
       /\ streamCapable srv)
  /\ (resolve h (limitBody h r) = Ok srv ->
      methodRejected h (limitBody h r) = false ->
      ((exists w, ServeHTTP h r = Streamed w)
       <-> headerHas r "Connection" "upgrade" /\ headerHas r "Upgrade" "websocket"
           /\ streamCapable srv)
      /\ (~ streamCapable srv ->
          ServeHTTP h r = Unary (unaryCall (limitBody h r) srv))).
Proof.
  split; [apply isStream_spec|].
  intros Hres Hm. unfold ServeHTTP. rewrite Hres, Hm, isStream_limitBody.
  rewrite <- isStream_spec.
  destruct (isStream r srv) eqn:Hs.
  - split; [split; eauto|]. intros Hn. exfalso. apply Hn.
    apply isStream_spec in Hs. tauto.
  - split; [|reflexivity]. split; [|discriminate].
    intros [w Hw]. discriminate.
Qed.

End Gate.

Lemma unaryService_not_streamCapable : ~ streamCapable unaryService.
Proof.
  intros (service & ep & Hs & Hep & Hn & Hm).
  simpl in Hs. destruct Hs as [<-|[]].
  simpl in Hep. destruct Hep as [<-|[<-|[]]]; simpl in Hn, Hm.
  - vm_compute in Hm. discriminate.
  - discriminate.
Qed.

Lemma stream_gate_witness :
  let r := mkRequest "GET"
             (("Content-Type", ["application/json"]) :: wsHeaders) EmptyString [] in
  let h := @WithService unaryService noOptions in
  @ServeHTTP plainExternals h r
  = Unary (@unaryCall plainExternals (@limitBody plainExternals h r) unaryService).
Proof.
  intros r h.
  apply (@stream_gate plainExternals h r unaryService);
    [reflexivity | reflexivity | exact unaryService_not_streamCapable].
Defined.

(** ** C7, C8, C10: payload extraction and the method check *)

Section Payload.
Context {E : Externals}.

Lemma requestPayload_plain (r : Request) :
  envelopeOrForm (Get (Header r) "Content-Type") = false ->
  requestPayload r =
  if String.eqb (Method r) "GET" then
    if 0 <? Z.of_nat (String.length (RawQuery r))
    then (qson_ToJSON (RawQuery r), [])
    else (Ok [], [])
  else if String.eqb (Method r) "PATCH" || String.eqb (Method r) "POST" then
    match ReadFrom (ReqBody r) with
    | (_, Some err) => (Err err, [PoolGet; PoolPut])
    | (buf, None) => (Ok buf, [PoolGet; PoolPut])
    end
  else (Ok [], []).
Proof.
  unfold envelopeOrForm, requestPayload. intros H.
  apply orb_false_elim in H. destruct H as [H H3].
  apply orb_false_elim in H. destruct H as [H1 H2].
  now rewrite H1, H2, H3.
Qed.

(** C7.  A GET request with a non-empty query string whose content type
    selects neither an envelope codec nor the form decoder has as payload
    what the query-string converter makes of the query, with no buffer
    taken from the pool; with the converter as the spec describes it, the
    query a=1&b=2 gives exactly the bytes of the object with the members a
    and b holding the strings 1 and 2. *)
Theorem get_query_payload (r : Request) :
  Method r = "GET" ->
  RawQuery r <> EmptyString ->
  envelopeOrForm (Get (Header r) "Content-Type") = false ->
  requestPayload r = (qson_ToJSON (RawQuery r), [])
  /\ (qson_ToJSON = spec_qson_ToJSON ->
      RawQuery r = "a=1&b=2" ->
      requestPayload r = (Ok abObject, [])).
Proof.
  intros Hm Hq Hct.
  assert (Hp : requestPayload r = (qson_ToJSON (RawQuery r), [])).
  { rewrite (requestPayload_plain r Hct), Hm. simpl.
    destruct (RawQuery r) as [|c q]; [contradiction|]. reflexivity. }
  split; [exact Hp|].
  intros Hspec Hab. rewrite Hp, Hspec, Hab. reflexivity.
Qed.

End Payload.

Lemma get_query_payload_witness :
  @requestPayload plainExternals
    (mkRequest "GET" [("Content-Type", ["application/json"])] "a=1&b=2" [])
  = (Ok abObject, []).
Proof.
  apply (@get_query_payload plainExternals
           (mkRequest "GET" [("Content-Type", ["application/json"])] "a=1&b=2" []));
    try reflexivity.
  discriminate.
Defined.

Section Ceiling.
Context {E : Externals}.

Lemma logError_forwards (e : error) (a : Action) :
  In a (logError e) -> forwards a = false.
Proof.
  unfold logError. destruct logV; simpl; [|tauto].
  intros [<-|[]]. reflexivity.
Qed.

Lemma ReadFrom_limited (b : Body) (n : Z) :
  body_limit b = None ->
  ReadFrom (MaxBytesReader b n) =
  if n <? Z.of_nat (length (body_data b))
  then (take (Z.to_nat n) (body_data b), Some PayloadTooLarge)
  else (body_data b, None).
Proof. intros Hb. unfold ReadFrom, MaxBytesReader. simpl. now rewrite Hb. Qed.

Lemma requestPayload_body (h : rpcHandler) (r : Request) :
  body_limit (ReqBody r) = None ->
  Method r = "POST" \/ Method r = "PATCH" ->
  envelopeOrForm (Get (Header r) "Content-Type") = false ->
  requestPayload (limitBody h r) =
  if bodySize h <? Z.of_nat (length (body_data (ReqBody r)))
  then (Err PayloadTooLarge, [PoolGet; PoolPut])
  else (Ok (body_data (ReqBody r)), [PoolGet; PoolPut]).
Proof.
  intros Hb Hm Hct.
  rewrite requestPayload_plain by exact Hct.
  cbn [limitBody Method ReqBody].
  rewrite (ReadFrom_limited _ _ Hb).
  destruct Hm as [-> | ->]; simpl;
    now destruct (bodySize h <? Z.of_nat (length (body_data (ReqBody r)))).
Qed.


(** ** C10: the method check *)

Lemma resolve_error (h : rpcHandler) (r : Request) (err : error) :
  resolve h r = Err err -> exists msg, err = InternalServerError "go.micro.api" msg.
Proof.
  unfold resolve. destruct (s h); [discriminate|].
  destruct (OptRouter (opts h)) as [route|].
  - destruct (route r); [discriminate|]. intros [= <-]. eauto.
  - intros [= <-]. eauto.
Qed.

Lemma methodRejected_spec (h : rpcHandler) (r : Request) :
  methodRejected h r = true
  <-> is_Some (OptRouter (opts h)) /\ Method r <> "GET" /\ Method r <> "POST".
Proof.
  unfold methodRejected.
  rewrite !andb_true_iff, !negb_true_iff, bool_decide_eq_true.
  rewrite !String.eqb_neq. tauto.
Qed.

(** C10.  [ServeHTTP] answers MethodNotAllowed exactly when the service
    resolves, a router is configured and the method is neither GET nor
    POST; a handler built by [WithService] with no router rejects no
    request, whatever its method; and [requestPayload] treats a request
    with method PATCH exactly as the same request with method POST (the
    form parser, the one collaborator that is handed the method, treating
    the two alike, as Go's does). *)
Theorem method_gate (h : rpcHandler) (r : Request) :
  (ServeHTTP h r = Rejected (MethodNotAllowed "go.micro.api" "method not allowed")
   <-> (exists srv, resolve h (limitBody h r) = Ok srv)
       /\ is_Some (OptRouter (opts h))
       /\ Method r <> "GET" /\ Method r <> "POST")
  /\ (forall (svc : ApiService) (o : Options) (e : error),
         OptRouter o = None -> ServeHTTP (WithService svc o) r <> Rejected e)
  /\ (ParseForm (setMethod r "PATCH") = ParseForm (setMethod r "POST") ->
      requestPayload (setMethod r "PATCH") = requestPayload (setMethod r "POST")).
Proof.
  split; [|split].
  - unfold ServeHTTP.
    destruct (resolve h (limitBody h r)) as [srv|err] eqn:Hres.
    + destruct (methodRejected h (limitBody h r)) eqn:Hm.
      * apply methodRejected_spec in Hm. split; eauto.
      * split.
        -- destruct (isStream (limitBody h r) srv); discriminate.
        -- intros (_ & Hrej). apply (methodRejected_spec h (limitBody h r)) in Hrej.
           congruence.
    + split.
      * apply resolve_error in Hres. destruct Hres as [msg ->]. discriminate.
      * intros ([srv Hsrv] & _). discriminate.
  - intros svc o e Ho. unfold ServeHTTP, WithService, resolve, methodRejected.
    cbn [s opts]. rewrite Ho.
    rewrite bool_decide_eq_false_2 by (intros [x Hx]; discriminate).
    rewrite andb_false_r.
    destruct (isStream _ svc); discriminate.
  - intros Hform. unfold requestPayload. rewrite Hform.
    unfold setMethod. cbn [Method Header RawQuery ReqBody].
    replace (String.eqb "PATCH" "GET") with false by reflexivity.
    replace (String.eqb "POST" "GET") with false by reflexivity.
    reflexivity.
Qed.

End Ceiling.


Lemma method_gate_witness :
  let r := mkRequest "PUT" [("Content-Type", ["application/json"])] EmptyString [] in
  (forall e, @ServeHTTP plainExternals (WithService unaryService noOptions) r
             <> Rejected e)
  /\ @ServeHTTP plainExternals
       (NewHandler {| MaxRecvSize := 0;
                      OptRouter := Some (fun _ => inl unaryService) |}) r
     = Rejected (MethodNotAllowed "go.micro.api" "method not allowed")
  /\ @requestPayload plainExternals (setMethod r "PATCH")
     = @requestPayload plainExternals (setMethod r "POST").
Proof.
  intros r. split; [|split].
  - intros e.
    apply (proj1 (proj2 (@method_gate plainExternals
                           (WithService unaryService noOptions) r))).
    reflexivity.
  - apply (proj1 (@method_gate plainExternals _ r)).
    split; [exists unaryService; reflexivity|].
    split; [eexists; reflexivity|]. split; discriminate.
  - apply (proj2 (proj2 (@method_gate plainExternals
                           (WithService unaryService noOptions) r))).
    reflexivity.
Defined.

(** ** The relays *)

Lemma run_snoc (evs : list Event) (e : Event) (s : Session) :
  run (evs ++ [e]) s = step (run evs s) e.
Proof. unfold run. now rewrite fold_left_app. Qed.

Lemma arrivals_snoc (evs : list Event) (e : Event) :
  arrivals (evs ++ [e])
  = arrivals evs ++ match e with EvConn x => [x] | _ => [] end.
Proof. unfold arrivals. rewrite flat_map_app. simpl. now rewrite app_nil_r. Qed.

Lemma dataFrames_snoc (xs : list ConnRead) (x : ConnRead) :
  dataFrames (xs ++ [x]) = dataFrames xs ++ dataFrames [x].
Proof. unfold dataFrames. now rewrite flat_map_app. Qed.

(** Case analysis on one step of the upstream relay. *)
Ltac up_cases :=
  repeat match goal with
         | |- context [match ?x with _ => _ end] =>
             match type of x with
             | list ConnRead => destruct x eqn:?
             | list RspRead => destruct x eqn:?
             | ConnRead => destruct x eqn:?
             | RspRead => destruct x eqn:?
             | error => destruct x eqn:?
             | option error => destruct x eqn:?
             | bool => destruct x eqn:?
             end
         end.

Lemma up_select_closedOnce (done : bool) (u : Up) :
  up_pc u = AtSelect -> closedOnce u -> closedOnce (up_select done u).
Proof.
  unfold closedOnce, up_select, up_return. intros Hpc Hc. rewrite Hpc in Hc.
  destruct done; simpl; congruence.
Qed.

Lemma up_read_closedOnce (on : bool) (send : option error) (x : ConnRead) (u : Up) :
  up_pc u = InRead -> closedOnce u -> closedOnce (up_read on send x u).
Proof.
  unfold closedOnce, up_read, up_return. intros Hpc Hc. rewrite Hpc in Hc.
  up_cases; simpl; congruence.
Qed.

Lemma step_closedOnce (s : Session) (e : Event) :
  closedOnce (up s) -> closedOnce (up (step s e)).
Proof.
  intros Hc. destruct e; simpl; try assumption.
  - destruct (up_pc (up s)) eqn:Hpc; simpl; try assumption.
    + now apply up_select_closedOnce.
    + destruct (conn_in s); simpl; [assumption|].
      now apply up_read_closedOnce.
  - destruct (down_pc (down s)); simpl; try assumption.
    destruct (rsp_in s); simpl; assumption.
Qed.

Lemma run_closedOnce (evs : list Event) (s : Session) :
  closedOnce (up s) -> closedOnce (up (run evs s)).
Proof.
  revert s. induction evs as [|e evs IH]; intros s Hc; simpl; [assumption|].
  apply IH. now apply step_closedOnce.
Qed.

(** ** C1: the backend stream is closed exactly once *)

(** C1.  In every run of a session, [stream.Close] has been called exactly
    once if the upstream relay has returned and not at all while it has
    not, the call being the relay's own deferred one; and a relay blocked
    in its read that is handed a close error with status going-away,
    normal-closure or no-status-received returns, closing the stream, with
    nothing added to its error log. *)
Theorem stream_closed_once (on : bool) (o : OpCode) (evs : list Event) :
  let s := run evs (startSession on o) in
  (up_pc (up s) = Returned -> up_closes (up s) = 1%nat)
  /\ (up_pc (up s) <> Returned -> up_closes (up s) = 0%nat)
  /\ (forall (code : Z) (reason : string) (rest : list ConnRead)
             (send : option error),
         up_pc (up s) = InRead ->
         conn_in s = CErr (ClosedError code reason) :: rest ->
         code = StatusGoingAway \/ code = StatusNormalClosure
         \/ code = StatusNoStatusRcvd ->
         let s' := step s (EvUp send) in
         up_pc (up s') = Returned
         /\ up_log (up s') = up_log (up s)
         /\ up_closes (up s') = 1%nat).
Proof.
  intros s.
  assert (Hc : closedOnce (up s)) by (apply run_closedOnce; reflexivity).
  unfold closedOnce in Hc.
  split; [|split].
  - intros Hpc. now rewrite Hpc in Hc.
  - intros Hpc. destruct (up_pc (up s)); congruence.
  - intros code reason rest send Hpc Hin Hcode. simpl.
    rewrite Hpc, Hin. simpl.
    assert (Hb : benignClose code = true)
      by (destruct Hcode as [->|[->| ->]]; reflexivity).
    rewrite Hb. simpl. rewrite Hpc in Hc. rewrite Hc. auto.
Qed.

Lemma stream_closed_once_witness :
  let s := run [ EvUp None; EvConn (CFrame [x68; x69] OpText); EvUp None;
                 EvUp None; EvConn (CErr (ClosedError StatusGoingAway EmptyString)) ]
               (startSession true OpText) in
  let s' := step s (EvUp None) in
  up_closes (up s) = 0%nat
  /\ up_pc (up s') = Returned
  /\ up_log (up s') = up_log (up s)
  /\ up_closes (up s') = 1%nat.
Proof.
  intros s s'.
  destruct (stream_closed_once true OpText
              [ EvUp None; EvConn (CFrame [x68; x69] OpText); EvUp None;
                EvUp None; EvConn (CErr (ClosedError StatusGoingAway EmptyString)) ])
    as (_ & Hopen & Hclose).
  split.
  - apply Hopen. vm_compute. discriminate.
  - apply (Hclose StatusGoingAway EmptyString [] None).
    + reflexivity.
    + reflexivity.
    + left. reflexivity.
Defined.

(** ** C9: frames go upstream verbatim and in order *)

Lemma step_conn_order (s : Session) (e : Event) :
  up_got (up (step s e)) ++ conn_in (step s e)
  = (up_got (up s) ++ conn_in s) ++ match e with EvConn x => [x] | _ => [] end.
Proof.
  destruct e; simpl; rewrite ?app_nil_r; try reflexivity.
  - now rewrite app_assoc.
  - destruct (up_pc (up s)); simpl; try reflexivity.
    + unfold up_select, up_return. now destruct (stream_done s).
    + destruct (conn_in s) as [|x q] eqn:Hq; simpl; [now rewrite Hq|].
      unfold up_read, up_return. up_cases; simpl; now rewrite <- app_assoc.
  - destruct (down_pc (down s)); simpl; try reflexivity.
    destruct (rsp_in s); reflexivity.
Qed.

Lemma step_sends (s : Session) (e : Event) :
  up_sends (up s) = dataFrames (up_got (up s)) ->
  up_sends (up (step s e)) = dataFrames (up_got (up (step s e))).
Proof.
  intros Hs. destruct e; simpl; try assumption.
  - destruct (up_pc (up s)); simpl; try assumption.
    + unfold up_select, up_return. now destruct (stream_done s).
    + destruct (conn_in s) as [|x q]; simpl; [assumption|].
      unfold up_read, up_return.
      destruct x as [buf o'|err]; simpl.
      * destruct (isData o') eqn:Hd; simpl.
        -- destruct send; simpl; rewrite dataFrames_snoc, Hs; simpl;
             now rewrite Hd.
        -- rewrite dataFrames_snoc, Hs. simpl. rewrite Hd. now rewrite app_nil_r.
      * up_cases; simpl; rewrite dataFrames_snoc, Hs; simpl; now rewrite app_nil_r.
  - destruct (down_pc (down s)); simpl; try assumption.
    destruct (rsp_in s); assumption.
Qed.

Lemma run_forwarding (evs : list Event) (s : Session) :
  up_sends (up s) = dataFrames (up_got (up s)) ->
  up_got (up (run evs s)) ++ conn_in (run evs s)
  = (up_got (up s) ++ conn_in s) ++ arrivals evs
  /\ up_sends (up (run evs s)) = dataFrames (up_got (up (run evs s))).
Proof.
  intros Hs. induction evs as [|e evs IH] using rev_ind.
  - simpl. now rewrite app_nil_r.
  - destruct IH as [IH1 IH2]. rewrite run_snoc, arrivals_snoc. split.
    + rewrite step_conn_order, IH1. now rewrite <- !app_assoc.
    + now apply step_sends.
Qed.

Lemma run_arrive (frames : list (bytes * OpCode)) (s : Session) :
  run (map (fun f => EvConn (toRead f)) frames) s
  = with_up s (conn_in s ++ map toRead frames) (up s).
Proof.
  revert s. induction frames as [|f fs IH]; intros s; simpl.
  - rewrite app_nil_r. now destruct s.
  - rewrite IH. unfold with_up. simpl. now rewrite <- app_assoc.
Qed.

Lemma run_drain (frames : list (bytes * OpCode)) (s : Session) :
  up_pc (up s) = AtSelect ->
  stream_done s = false ->
  conn_in s = map toRead frames ->
  let s' := run (twicePerFrame frames) s in
  up_pc (up s') = AtSelect
  /\ conn_in s' = []
  /\ up_sends (up s') = up_sends (up s) ++ dataFrames (map toRead frames)
  /\ up_closes (up s') = up_closes (up s)
  /\ up_log (up s') = up_log (up s).
Proof.
  revert s. induction frames as [|[buf o'] fs IH]; intros s Hpc Hdone Hin; simpl.
  - rewrite app_nil_r. auto.
  - rewrite Hpc, Hdone. simpl. rewrite Hin. simpl.
    match goal with |- context [run _ ?t] => specialize (IH t) end.
    unfold up_read in *. simpl in *.
    destruct (isData o') eqn:Hd; simpl in *.
    + destruct IH as (H1 & H2 & H3 & H4 & H5); auto.
      rewrite H1, H2, H3, H4, H5. rewrite <- app_assoc. auto.
    + destruct IH as (H1 & H2 & H3 & H4 & H5); auto.
Qed.



(** ** C2: cancellation *)

Lemma step_stream_done (s : Session) (e : Event) :
  stream_done s = true -> stream_done (step s e) = true.
Proof.
  intros H. destruct e; simpl; auto.
  - destruct (up_pc (up s)); simpl; auto. destruct (conn_in s); simpl; auto.
  - destruct (down_pc (down s)); simpl; auto. destruct (rsp_in s); simpl; auto.
Qed.

Lemma step_cancelled (s : Session) (e : Event) :
  req_done s || stream_done s = true ->
  req_done (step s e) || stream_done (step s e) = true.
Proof.
  intros H. destruct e; simpl; auto using orb_true_r.
  - destruct (up_pc (up s)); simpl; auto. destruct (conn_in s); simpl; auto.
  - destruct (down_pc (down s)); simpl; auto. destruct (rsp_in s); simpl; auto.
Qed.

Lemma step_up_reads (s : Session) (e : Event) :
  stream_done s = true -> up_reads (up (step s e)) = up_reads (up s).
Proof.
  intros H. destruct e; simpl; auto.
  - destruct (up_pc (up s)); simpl; auto.
    + now rewrite H.
    + destruct (conn_in s); simpl; auto.
      unfold up_read, up_return. up_cases; reflexivity.
  - destruct (down_pc (down s)); simpl; auto. destruct (rsp_in s); simpl; auto.
Qed.

Lemma step_down_reads (s : Session) (e : Event) :
  req_done s || stream_done s = true ->
  down_reads (down (step s e)) = down_reads (down s).
Proof.
  intros H. destruct e; simpl; auto.
  - destruct (up_pc (up s)); simpl; auto. destruct (conn_in s); simpl; auto.
  - destruct (down_pc (down s)); simpl; auto.
    + unfold down_select. now rewrite H.
    + destruct (rsp_in s); simpl; auto.
      unfold down_read, down_return. up_cases; reflexivity.
Qed.

Lemma run_up_reads (evs : list Event) (s : Session) :
  stream_done s = true -> up_reads (up (run evs s)) = up_reads (up s).
Proof.
  revert s. induction evs as [|e evs IH]; intros s H; simpl; [reflexivity|].
  rewrite IH by now apply step_stream_done. now apply step_up_reads.
Qed.

Lemma run_down_reads (evs : list Event) (s : Session) :
  req_done s || stream_done s = true ->
  down_reads (down (run evs s)) = down_reads (down s).
Proof.
  revert s. induction evs as [|e evs IH]; intros s H; simpl; [reflexivity|].
  rewrite IH by now apply step_cancelled. now apply step_down_reads.
Qed.




(** * Further properties of the handler *)

(** ** The payload extractor *)

Section Extractor.
Context {E : Externals}.

(** X1.  With an envelope content type (the raw header value contains
    [application/json-rpc], [application/proto-rpc] or
    [application/octet-stream] anywhere, parameters included) the payload
    is the codec's reading of the body alone: method and query string have
    no influence, the pool is not used, and a header the codec cannot read
    is the error returned. *)
Theorem envelope_payload_from_body_only (r : Request) (m q : string) :
  let ct := Get (Header r) "Content-Type" in
  Contains ct "application/json-rpc" = true
  \/ Contains ct "application/proto-rpc" = true
  \/ Contains ct "application/octet-stream" = true ->
  requestPayload {| Method := m; Header := Header r; RawQuery := q;
                    ReqBody := ReqBody r |} = requestPayload r
  /\ snd (requestPayload r) = []
  /\ (forall e, Contains ct "application/json-rpc" = true ->
                jsonrpc_ReadHeader (ReqBody r) = Some e ->
                requestPayload r = (Err e, []))
  /\ (forall e, Contains ct "application/json-rpc" = false ->
                protorpc_ReadHeader (ReqBody r) = Some e ->
                requestPayload r = (Err e, [])).
Proof.
  intros ct Hct. unfold requestPayload. cbn [Method Header RawQuery ReqBody].
  fold ct.
  destruct (Contains ct "application/json-rpc") eqn:Hj.
  - repeat split.
    + destruct (jsonrpc_ReadHeader (ReqBody r)); [reflexivity|].
      now destruct (jsonrpc_ReadBody (ReqBody r)).
    + intros e _ ->. reflexivity.
    + discriminate.
  - assert (Hp : Contains ct "application/proto-rpc"
                 || Contains ct "application/octet-stream" = true).
    { destruct Hct as [H|[H|H]]; [discriminate| |]; rewrite H;
        auto using orb_true_r. }
    rewrite Hp. repeat split.
    + destruct (protorpc_ReadHeader (ReqBody r)); [reflexivity|].
      now destruct (protorpc_ReadBody (ReqBody r)).
    + discriminate.
    + intros e _ ->. reflexivity.
Qed.

(** X2.  Outside the envelope and form content types, a request whose
    method is none of GET, PATCH and POST, and a GET request without a
    query string, have the empty payload: no error, the body is not read
    and no buffer is taken. *)
Theorem other_methods_empty_payload (r : Request) :
  envelopeOrForm (Get (Header r) "Content-Type") = false ->
  Method r <> "PATCH" -> Method r <> "POST" ->
  Method r <> "GET" \/ RawQuery r = EmptyString ->
  requestPayload r = (Ok [], []).
Proof.
  intros Hct Hpa Hpo Hg. rewrite (requestPayload_plain r Hct).
  apply String.eqb_neq in Hpa, Hpo. rewrite Hpa, Hpo. simpl.
  destruct Hg as [Hg|Hq].
  - apply String.eqb_neq in Hg. now rewrite Hg.
  - rewrite Hq. simpl. now destruct (String.eqb (Method r) "GET").
Qed.

(** X3.  Whatever the request, extraction leaves no buffer checked out,
    and it touches the pool (one [Get], then one [Put]) only in the arm
    that reads a PATCH or POST body. *)
Theorem pool_balanced (r : Request) :
  outstanding (snd (requestPayload r)) 0 = 0
  /\ (snd (requestPayload r) = []
      \/ (snd (requestPayload r) = [PoolGet; PoolPut]
          /\ envelopeOrForm (Get (Header r) "Content-Type") = false
          /\ (Method r = "PATCH" \/ Method r = "POST"))).
Proof.
  destruct (envelopeOrForm (Get (Header r) "Content-Type")) eqn:Hct.
  - assert (Hnil : snd (requestPayload r) = []).
    { unfold envelopeOrForm in Hct. unfold requestPayload.
      destruct (Contains _ "application/json-rpc").
      - destruct (jsonrpc_ReadHeader _); [reflexivity|].
        now destruct (jsonrpc_ReadBody _).
      - destruct (Contains _ "application/proto-rpc"
                  || Contains _ "application/octet-stream").
        + destruct (protorpc_ReadHeader _); [reflexivity|].
          now destruct (protorpc_ReadBody _).
        + simpl in Hct. now rewrite Hct. }
    rewrite Hnil. auto.
  - rewrite (requestPayload_plain r Hct).
    destruct (String.eqb (Method r) "GET") eqn:Hg.
    + destruct (0 <? _); auto.
    + destruct (String.eqb (Method r) "PATCH" || String.eqb (Method r) "POST") eqn:Hm;
        [|auto].
      assert (Hpp : Method r = "PATCH" \/ Method r = "POST").
      { apply orb_true_iff in Hm. rewrite !String.eqb_eq in Hm. exact Hm. }
      destruct (ReadFrom (ReqBody r)) as [buf [err|]]; simpl; auto.
Qed.

(** X4.  In the body-reading arm a successful extraction returns the whole
    body, never a truncated one; without a ceiling on the body (as when
    [requestPayload] is used on a request [ServeHTTP] has not wrapped) it
    always succeeds. *)
Theorem body_payload_never_truncated (r : Request) :
  envelopeOrForm (Get (Header r) "Content-Type") = false ->
  Method r = "PATCH" \/ Method r = "POST" ->
  (forall b pool, requestPayload r = (Ok b, pool) -> b = body_data (ReqBody r))
  /\ (body_limit (ReqBody r) = None ->
      requestPayload r = (Ok (body_data (ReqBody r)), [PoolGet; PoolPut])).
Proof.
  intros Hct Hm. rewrite (requestPayload_plain r Hct).
  assert (Hg : String.eqb (Method r) "GET" = false)
    by (destruct Hm as [-> | ->]; reflexivity).
  assert (Hpp : String.eqb (Method r) "PATCH" || String.eqb (Method r) "POST" = true)
    by (destruct Hm as [-> | ->]; reflexivity).
  rewrite Hg, Hpp. unfold ReadFrom. split.
  - intros b pool.
    destruct (body_limit (ReqBody r)) as [n|].
    + destruct (n <? _); [discriminate|]. now intros [= <- _].
    + now intros [= <- _].
  - now intros ->.
Qed.

End Extractor.

Lemma envelope_payload_from_body_only_witness :
  let r := mkRequest "POST" [("Content-Type", ["application/json-rpc; charset=utf-8"])]
             EmptyString [x7b; x7d] in
  @requestPayload plainExternals (setQuery (setMethod r "GET") "a=1")
  = @requestPayload plainExternals r.
Proof.
  intros r.
  apply (@envelope_payload_from_body_only plainExternals r "GET" "a=1").
  left. reflexivity.
Defined.

Lemma other_methods_empty_payload_witness :
  @requestPayload plainExternals
    (mkRequest "PUT" [("Content-Type", ["application/json"])] "a=1" [x7b; x7d])
  = (Ok [], []).
Proof.
  apply (@other_methods_empty_payload plainExternals); try discriminate.
  - reflexivity.
  - left. discriminate.
Defined.

Lemma body_payload_never_truncated_witness :
  @requestPayload plainExternals
    (mkRequest "PATCH" [("Content-Type", ["application/json"])] EmptyString [x7b; x7d])
  = (Ok [x7b; x7d], [PoolGet; PoolPut]).
Proof.
  apply (@body_payload_never_truncated plainExternals
           (mkRequest "PATCH" [("Content-Type", ["application/json"])]
              EmptyString [x7b; x7d])).
  - reflexivity.
  - left. reflexivity.
  - reflexivity.
Defined.

(** ** The classifier tables *)

(** X5.  No content type is in both codec tables, and the unary path
    always hands the backend a content type from the table of the family
    it chose: the request's own when that is in a table, and
    [application/json] otherwise. *)
Theorem classify_supported (ct : string) :
  ~ (In ct protoCodecs /\ In ct jsonCodecs)
  /\ match classify ct with
     | (ProtoFamily, c) => c = ct /\ In ct protoCodecs
     | (JSONFamily, c) =>
         ~ In ct protoCodecs /\ In c jsonCodecs /\ (In ct jsonCodecs -> c = ct)
     end.
Proof.
  split.
  - intros [Hp Hj]. simpl in Hp, Hj.
    repeat match goal with
           | H : _ \/ _ |- _ => destruct H as [H|H]
           | H : False |- _ => destruct H
           end; subst; discriminate.
  - unfold classify.
    destruct (hasCodec ct protoCodecs) eqn:Hp.
    + apply hasCodec_In in Hp. auto.
    + assert (Hnp : ~ In ct protoCodecs).
      { intros Hin. apply hasCodec_In in Hin. congruence. }
      destruct (hasCodec ct jsonCodecs) eqn:Hj; cbn [negb].
      * apply hasCodec_In in Hj. auto.
      * split; [assumption|]. split; [simpl; auto|].
        intros Hin. apply (proj2 (hasCodec_In ct jsonCodecs)) in Hin. congruence.
Qed.

(** ** Service resolution and the unary path *)

Section Unary.
Context {E : Externals}.

(** X6.  A service given at construction is used without consulting the
    router; with neither service nor router the request is answered with
    the internal error [no route found]; a router's error is answered as
    an internal error carrying the router's message; and the router is
    handed the request with its body already under the ceiling. *)
Theorem resolve_precedence (h : rpcHandler) (r : Request) :
  (forall svc, s h = Some svc -> resolve h (limitBody h r) = Ok svc)
  /\ (s h = None -> OptRouter (opts h) = None ->
      ServeHTTP h r
      = Rejected (InternalServerError "go.micro.api" "no route found"))
  /\ (forall route msg,
         s h = None -> OptRouter (opts h) = Some route ->
         route (limitBody h r) = inr msg ->
         ServeHTTP h r = Rejected (InternalServerError "go.micro.api" msg))
  /\ (forall route svc,
         s h = None -> OptRouter (opts h) = Some route ->
         route (limitBody h r) = inl svc ->
         resolve h (limitBody h r) = Ok svc).
Proof.
  unfold ServeHTTP, resolve. repeat split.
  - now intros svc ->.
  - now intros -> ->.
  - intros route msg -> -> Hr. now rewrite Hr.
  - intros route svc -> -> Hr. now rewrite Hr.
Qed.

Lemma serveWebsocket_no_answer (r : Request) (srv : ApiService) (a : Action) :
  In a (ws_trace (serveWebsocket r srv)) -> answers a = false.
Proof.
  unfold serveWebsocket.
  destruct (requestPayload r) as [[payload|err] pool]; simpl.
  2:{ rewrite in_app_iff, in_map_iff. unfold logError.
      intros [(x & <- & _)|Hin]; [reflexivity|].
      destruct logV; simpl in Hin; [|tauto]. now destruct Hin as [<-|[]]. }
  assert (Hlog : forall e b, In b (logError e) -> answers b = false).
  { intros e b. unfold logError. destruct logV; simpl; [|tauto].
    now intros [<-|[]]. }
  assert (Hpool : forall b, In b (map APool pool) -> answers b = false).
  { intros b Hin. apply in_map_iff in Hin. now destruct Hin as (x & <- & _). }
  destruct (Upgrade r (wsHdr r)); simpl.
  { rewrite !in_app_iff. simpl. intros [[H|[<-|[]]]|H]; eauto. }
  destruct (Stream _ _ _ _); simpl.
  { rewrite !in_app_iff. simpl.
    intros [[[H|[<-|[]]]|[<-|[]]]|[H|[<-|[]]]]; eauto. }
  destruct (String.eqb (contentType r) "application/json");
    match goal with |- context [Send ?m] => destruct (Send m) end; simpl;
    rewrite !in_app_iff; simpl; rewrite ?in_app_iff; simpl;
    intuition (subst; eauto).
Qed.

Lemma filter_none {A : Type} (f : A -> bool) (l : list A) :
  (forall b, In b l -> f b = false) -> List.filter f l = [].
Proof.
  induction l as [|x xs IH]; intros H; simpl; [reflexivity|].
  rewrite (H x) by (left; reflexivity). apply IH.
  intros b Hin. apply H. now right.
Qed.

(** X7.  On the unary path the handler answers the request exactly once,
    as its last action, and calls the backend at most once; on the
    streaming path [serveWebsocket] itself never writes an answer, not
    even when extraction, the upgrade or the backend fails. *)
Theorem one_http_answer (h : rpcHandler) (r : Request) :
  match ServeHTTP h r with
  | Rejected _ => True
  | Unary t =>
      (exists t' a, t = t' ++ [a] /\ answers a = true
                    /\ List.filter answers t' = [])
      /\ (length (List.filter isCall t) <= 1)%nat
  | Streamed w => List.filter answers (ws_trace w) = []
  end.
Proof.
  unfold ServeHTTP.
  destruct (resolve h (limitBody h r)) as [srv|err]; [|exact I].
  destruct (methodRejected h (limitBody h r)); [exact I|].
  destruct (isStream (limitBody h r) srv).
  - apply filter_none. intros b. apply serveWebsocket_no_answer.
  - unfold unaryCall.
    destruct (requestPayload (limitBody h r)) as [[br|err] pool].
    + destruct (classify (contentType (limitBody h r))) as [fam ct].
      assert (Hpool : forall b, In b (map APool pool) -> answers b = false).
      { intros b Hin. apply in_map_iff in Hin. now destruct Hin as (x & <- & _). }
      assert (Hnc : List.filter isCall (map APool pool) = []).
      { clear. induction pool as [|x xs IH]; simpl; auto. }
      destruct (Call _ _ _ _) as [rsp|err]; split.
      * eexists _, _. split; [reflexivity|].
        split; [reflexivity|]. apply filter_none. intros b. rewrite in_app_iff.
        simpl. intros [H|[<-|[]]]; auto.
      * rewrite !List.filter_app, Hnc. simpl. lia.
      * eexists _, _. split; [reflexivity|].
        split; [reflexivity|]. apply filter_none. intros b. rewrite in_app_iff.
        simpl. intros [H|[<-|[]]]; auto.
      * rewrite !List.filter_app, Hnc. simpl. lia.
    + split.
      * eexists _, _. split; [reflexivity|]. split; [reflexivity|].
        apply filter_none.
        intros b Hin. apply in_map_iff in Hin. now destruct Hin as (x & <- & _).
      * rewrite List.filter_app. simpl. rewrite app_nil_r.
        induction pool as [|x xs IH]; simpl; auto.
Qed.

(** The unary path once extraction has succeeded. *)
Lemma unary_path (h : rpcHandler) (r : Request) (srv : ApiService)
    (br : bytes) (pool : list PoolEvent) :
  resolve h (limitBody h r) = Ok srv ->
  methodRejected h (limitBody h r) = false ->
  isStream r srv = false ->
  requestPayload (limitBody h r) = (Ok br, pool) ->
  let fam := fst (classify (contentType r)) in
  let ct := snd (classify (contentType r)) in
  let ep := api_ep_Name (SrvEndpoint srv) in
  ServeHTTP h r =
  Unary (map APool pool
         ++ [ACall (Name srv) ep ct fam br;
             match Call (Name srv) ep ct br with
             | Ok rsp => AWriteResponse rsp
             | Err err => AWriteError err
             end]).
Proof.
  intros Hres Hm Hs Hp fam ct ep. unfold ServeHTTP.
  rewrite Hres, Hm, isStream_limitBody, Hs. unfold unaryCall. rewrite Hp.
  change (contentType (limitBody h r)) with (contentType r).
  subst fam ct. destruct (classify (contentType r)) as [fam ct]. simpl.
  assert (Hbr : (if 0 <? Z.of_nat (length br) then br else []) = br)
    by now destruct br.
  rewrite Hbr. subst ep.
  destruct (Call _ _ _ _); now rewrite <- app_assoc.
Qed.


End Unary.

Lemma resolve_precedence_witness :
  @ServeHTTP plainExternals (NewHandler noOptions)
    (mkRequest "GET" [] EmptyString [])
  = Rejected (InternalServerError "go.micro.api" "no route found")
  /\ @ServeHTTP plainExternals
       (NewHandler {| MaxRecvSize := 0;
                      OptRouter := Some (fun _ => inr "service not found") |})
       (mkRequest "GET" [] EmptyString [])
     = Rejected (InternalServerError "go.micro.api" "service not found").
Proof.
  split.
  - apply (proj1 (proj2 (@resolve_precedence plainExternals _ _))); reflexivity.
  - apply (proj1 (proj2 (proj2 (@resolve_precedence plainExternals _ _)))
             (fun _ => inr "service not found")); reflexivity.
Defined.


(** ** The response writers *)

Lemma lastSet_acc (key : string) (calls : list WCall) (acc : option string) :
  fold_left (fun acc c => match c with
                          | WSet k v => if String.eqb k key then Some v else acc
                          | _ => acc
                          end) calls acc
  = match lastSet key calls with Some v => Some v | None => acc end.
Proof.
  unfold lastSet. revert acc.
  induction calls as [|c cs IH]; intros acc; simpl; [reflexivity|].
  rewrite IH. rewrite (IH (match c with
                           | WSet k v => if String.eqb k key then Some v else None
                           | _ => None
                           end)).
  destruct (fold_left _ cs None); [reflexivity|].
  destruct c; try reflexivity. now destruct (String.eqb key0 key).
Qed.

Lemma lastSet_app (key : string) (a b : list WCall) :
  lastSet key (a ++ b)
  = match lastSet key b with Some v => Some v | None => lastSet key a end.
Proof. unfold lastSet at 1. rewrite fold_left_app. apply lastSet_acc. Qed.

Lemma statusOf_app (a b : list WCall) : statusOf (a ++ b) = statusOf a ++ statusOf b.
Proof. unfold statusOf. apply flat_map_app. Qed.

Lemma bodyOf_app (a b : list WCall) : bodyOf (a ++ b) = bodyOf a ++ bodyOf b.
Proof. unfold bodyOf. apply flat_map_app. Qed.

Lemma grpcTrailers_sets (r : Request) (st msg : string) :
  statusOf (grpcTrailers r st msg) = [] /\ bodyOf (grpcTrailers r st msg) = []
  /\ forallb isSet (grpcTrailers r st msg) = true
  /\ lastSet "Content-Type" (grpcTrailers r st msg) = None
  /\ lastSet "Content-Length" (grpcTrailers r st msg) = None.
Proof. unfold grpcTrailers. destruct (Contains _ _); repeat split. Qed.

Section WriterFacts.
Context {W : Responder}.

(** The calls of [writeError]. *)
Lemma writeError_facts (r : Request) (err : error) :
  let ce := errors_Parse (errorText err) in
  let ce' := if pe_Code ce =? 0
             then {| pe_Id := "go.micro.api"; pe_Code := 500;
                     pe_Detail := "error during request: " +:+ pe_Detail ce;
                     pe_Status := "Internal Server Error" |}
             else ce in
  exists rest,
    writeError r err
    = WWriteHeader (if pe_Code ce =? 0 then 500 else pe_Code ce) :: rest
    /\ statusOf rest = []
    /\ In (WSet "Content-Type" "application/json") rest
    /\ lastSet "Content-Type" (writeError r err) = Some "application/json"
    /\ bodyOf (writeError r err) = [list_byte_of_string (errorJSON ce')].
Proof.
  intros ce ce'.
  destruct (grpcTrailers_sets r "13" (pe_Detail ce')) as (Hs & Hb & _ & Hct & _).
  set (body := list_byte_of_string (errorJSON ce')).
  set (rest := [WSet "Content-Type" "application/json"]
               ++ grpcTrailers r "13" (pe_Detail ce')
               ++ [WWrite body]
               ++ (if wlogV then [WLog (Write body)] else [])).
  assert (Hshape : writeError r err = [WWriteHeader (pe_Code ce')] ++ rest)
    by reflexivity.
  exists rest. split.
  { rewrite Hshape. simpl. f_equal. subst ce'. now destruct (pe_Code ce =? 0). }
  repeat split.
  - unfold rest. rewrite !statusOf_app, Hs. simpl. now destruct wlogV.
  - unfold rest. simpl. auto.
  - rewrite Hshape. unfold rest. rewrite !lastSet_app, Hct. now destruct wlogV.
  - rewrite Hshape. unfold rest. rewrite !bodyOf_app, Hb. simpl. now destruct wlogV.
Qed.

(** X9.  [writeError] passes the status to [WriteHeader] before it sets
    any header: the status is the parsed error's code, or 500 when that
    code is 0; in the latter case the body is the error rewritten with id
    [go.micro.api], code 500 and its detail prefixed with [error during
    request: ].  The content type it sets is [application/json] and it
    writes one body. *)
Theorem writeError_answer (r : Request) (err : error) :
  let ce := errors_Parse (errorText err) in
  let ce' := if pe_Code ce =? 0
             then {| pe_Id := "go.micro.api"; pe_Code := 500;
                     pe_Detail := "error during request: " +:+ pe_Detail ce;
                     pe_Status := "Internal Server Error" |}
             else ce in
  exists rest,
    writeError r err
    = WWriteHeader (if pe_Code ce =? 0 then 500 else pe_Code ce) :: rest
    /\ statusOf rest = []
    /\ In (WSet "Content-Type" "application/json") rest
    /\ lastSet "Content-Type" (writeError r err) = Some "application/json"
    /\ bodyOf (writeError r err) = [list_byte_of_string (errorJSON ce')].
Proof. apply writeError_facts. Qed.

(** X10.  For a request whose content type contains [application/grpc]
    both writers set [Trailer] twice, so the value left is [grpc-message]
    alone; [grpc-status] is 13 on an error and 0 on a response, whose
    [grpc-message] is empty.  For any other content type neither writer
    sets any of these headers. *)
Theorem grpc_trailer_headers (r : Request) (err : error) (rsp : bytes) :
  (Contains (Get (Header r) "Content-Type") "application/grpc" = true ->
   lastSet "Trailer" (writeError r err) = Some "grpc-message"
   /\ lastSet "grpc-status" (writeError r err) = Some "13"
   /\ lastSet "Trailer" (writeResponse r rsp) = Some "grpc-message"
   /\ lastSet "grpc-status" (writeResponse r rsp) = Some "0"
   /\ lastSet "grpc-message" (writeResponse r rsp) = Some EmptyString)
  /\ (Contains (Get (Header r) "Content-Type") "application/grpc" = false ->
      forall key, key = "Trailer" \/ key = "grpc-status" \/ key = "grpc-message" ->
                  lastSet key (writeError r err) = None
                  /\ lastSet key (writeResponse r rsp) = None).
Proof.
  unfold writeError, writeResponse, grpcTrailers. split; intros Hg; rewrite Hg.
  - repeat split; (destruct wlogV; [|]); try (destruct (Write rsp)); reflexivity.
  - intros key [-> | [-> | ->]];
      split; (destruct wlogV; [|]); try (destruct (Write rsp)); reflexivity.
Qed.

(** X11.  With error logging enabled [writeError] hands the result of its
    body write to the logger whether the write failed or not (the guard
    tests the error being reported, not the write's), so a successful
    write logs a nil error; [writeResponse] logs only a failed write. *)
Theorem writeError_logs_write_result (r : Request) (err : error) (rsp : bytes) :
  wlogV = true ->
  (exists b, bodyOf (writeError r err) = [b]
             /\ In (WLog (Write b)) (writeError r err))
  /\ (Write rsp = None -> forall x, ~ In (WLog x) (writeResponse r rsp))
  /\ (forall e, Write rsp = Some e -> In (WLog (Some e)) (writeResponse r rsp)).
Proof.
  intros Hlog. split; [|split].
  - destruct (writeError_facts r err) as (rest & _ & _ & _ & _ & Hb).
    eexists. split; [exact Hb|].
    unfold writeError. rewrite Hlog. rewrite !in_app_iff. simpl. auto 10.
  - intros Hw x. unfold writeResponse, grpcTrailers. rewrite Hw.
    destruct (Contains _ _); simpl; intuition discriminate.
  - intros e Hw. unfold writeResponse. rewrite Hw, Hlog.
    rewrite !in_app_iff. simpl. auto 10.
Qed.

(** The calls of [writeResponse]. *)
Lemma writeResponse_facts (r : Request) (rsp : bytes) :
  (exists pre post,
      writeResponse r rsp = pre ++ WWrite rsp :: post
      /\ forallb isSet pre = true
      /\ List.filter isSet post = [])
  /\ statusOf (writeResponse r rsp) = []
  /\ bodyOf (writeResponse r rsp) = [rsp]
  /\ lastSet "Content-Type" (writeResponse r rsp)
     = Some (Get (Header r) "Content-Type")
  /\ lastSet "Content-Length" (writeResponse r rsp)
     = Some (Itoa (Z.of_nat (length rsp))).
Proof.
  destruct (grpcTrailers_sets r "0" EmptyString) as (Hs & Hb & Hset & Hct & Hcl).
  unfold writeResponse. split; [|repeat split].
  - exists ([ WSet "Content-Type" (Get (Header r) "Content-Type");
              WSet "Content-Length" (Itoa (Z.of_nat (length rsp))) ]
            ++ grpcTrailers r "0" EmptyString).
    eexists. rewrite <- app_assoc. split; [reflexivity|]. split.
    + simpl. exact Hset.
    + destruct (Write rsp); [destruct wlogV|]; reflexivity.
  - rewrite !statusOf_app, Hs. simpl. destruct (Write rsp); [now destruct wlogV|reflexivity].
  - rewrite !bodyOf_app, Hb. simpl. destruct (Write rsp); [now destruct wlogV|reflexivity].
  - rewrite !lastSet_app, Hct.
    destruct (Write rsp); [now destruct wlogV|reflexivity].
  - rewrite !lastSet_app, Hcl.
    destruct (Write rsp); [now destruct wlogV|reflexivity].
Qed.

(** X12.  [writeResponse] sets its headers before it writes and never
    calls [WriteHeader]: [Content-Type] is the request's raw header value,
    parameters included, [Content-Length] is the decimal length of the
    body, and the one body written is the response. *)
Theorem writeResponse_headers (r : Request) (rsp : bytes) :
  (exists pre post,
      writeResponse r rsp = pre ++ WWrite rsp :: post
      /\ forallb isSet pre = true
      /\ List.filter isSet post = [])
  /\ statusOf (writeResponse r rsp) = []
  /\ bodyOf (writeResponse r rsp) = [rsp]
  /\ lastSet "Content-Type" (writeResponse r rsp)
     = Some (Get (Header r) "Content-Type")
  /\ lastSet "Content-Length" (writeResponse r rsp)
     = Some (Itoa (Z.of_nat (length rsp))).
Proof. apply writeResponse_facts. Qed.

End WriterFacts.

Lemma grpc_trailer_headers_witness :
  let r := mkRequest "POST" [("Content-Type", ["application/grpc+proto"])]
             EmptyString [] in
  lastSet "Trailer" (@writeError plainResponder r (ErrorString "boom"))
  = Some "grpc-message"
  /\ lastSet "Trailer"
       (@writeResponse plainResponder
          (mkRequest "POST" [("Content-Type", ["application/json"])] EmptyString [])
          [x7b; x7d]) = None.
Proof.
  intros r. split.
  - apply (proj1 (@grpc_trailer_headers plainResponder r (ErrorString "boom") [])).
    reflexivity.
  - apply (proj2 (@grpc_trailer_headers plainResponder
                    (mkRequest "POST" [("Content-Type", ["application/json"])]
                       EmptyString [])
                    (ErrorString "boom") [x7b; x7d])).
    + reflexivity.
    + left. reflexivity.
Defined.

Lemma writeError_logs_write_result_witness :
  In (WLog None)
     (@writeError plainResponder
        (mkRequest "GET" [] EmptyString []) (ErrorString "boom"))
  /\ forall x, ~ In (WLog x)
                 (@writeResponse plainResponder
                    (mkRequest "GET" [] EmptyString []) [x7b; x7d]).
Proof.
  destruct (@writeError_logs_write_result plainResponder
              (mkRequest "GET" [] EmptyString []) (ErrorString "boom")
              [x7b; x7d] eq_refl) as ((b & _ & Hin) & Hrsp & _).
  split; [exact Hin|]. apply Hrsp. reflexivity.
Defined.

(** ** Round trip on the unary path *)

(** X13.  With a backend that echoes its request, a PATCH or POST whose
    body is within the ceiling, sent with a content type that is neither
    an envelope nor a form, is answered with exactly one write of the very
    bytes of its body, no explicit status, and a [Content-Length] equal to
    the body's length. *)
Theorem echo_round_trip {E : Externals} {W : Responder}
    (h : rpcHandler) (r : Request) (srv : ApiService) :
  (forall a b c x, Call a b c x = Ok x) ->
  resolve h (limitBody h r) = Ok srv ->
  methodRejected h (limitBody h r) = false ->
  isStream r srv = false ->
  body_limit (ReqBody r) = None ->
  Method r = "POST" \/ Method r = "PATCH" ->
  envelopeOrForm (Get (Header r) "Content-Type") = false ->
  Z.of_nat (length (body_data (ReqBody r))) <= bodySize h ->
  let calls := httpCalls (limitBody h r) (ServeHTTP h r) in
  bodyOf calls = [body_data (ReqBody r)]
  /\ statusOf calls = []
  /\ lastSet "Content-Length" calls
     = Some (Itoa (Z.of_nat (length (body_data (ReqBody r))))).
Proof.
  intros Hecho Hres Hm Hs Hb Hmeth Hct Hlen calls.
  pose proof (requestPayload_body h r Hb Hmeth Hct) as Hp.
  apply Z.ltb_ge in Hlen. rewrite Hlen in Hp.
  pose proof (unary_path h r srv _ _ Hres Hm Hs Hp) as Hu. cbv zeta in Hu.
  subst calls. rewrite Hu, Hecho. simpl.
  rewrite app_nil_r.
  destruct (writeResponse_facts (limitBody h r) (body_data (ReqBody r)))
    as (_ & H1 & H2 & _ & H3).
  auto.
Qed.

Lemma echo_round_trip_witness :
  let r := mkRequest "POST" [("Content-Type", ["application/protobuf"])] EmptyString
             [x0a; x01; x61] in
  let h := WithService unaryService noOptions in
  bodyOf (@httpCalls plainResponder (@limitBody plainExternals h r)
            (@ServeHTTP plainExternals h r)) = [[x0a; x01; x61]].
Proof.
  intros r h.
  apply (@echo_round_trip plainExternals plainResponder h r unaryService);
    try reflexivity.
  - left. reflexivity.
  - vm_compute. discriminate.
Defined.

(** ** Opening the bridge *)

Section Opening.
Context {E : Externals}.

Lemma in_pool_inv (pool : list PoolEvent) (a : Action) :
  In a (map APool pool) -> exists x, a = APool x.
Proof. intros Hin. apply in_map_iff in Hin. destruct Hin as (x & <- & _). eauto. Qed.

Lemma in_log_inv (e : error) (a : Action) : In a (logError e) -> a = ALog e.
Proof.
  unfold logError. destruct logV; simpl; [|tauto]. now intros [<-|[]].
Qed.

(** The five ways [serveWebsocket] can go. *)
Lemma serveWebsocket_cases (r : Request) (srv : ApiService) :
  let w := serveWebsocket r srv in
  let ep := api_ep_Name (SrvEndpoint srv) in
  (exists e pool,
      requestPayload r = (Err e, pool)
      /\ ws_trace w = map APool pool ++ logError e /\ ws_relaying w = false)
  \/ (exists payload pool,
         requestPayload r = (Ok payload, pool)
         /\ let t1 := map APool pool ++ [AUpgrade (wsHdr r)] in
            let t2 := t1 ++ [AStream (Name srv) ep (wsContentType r)
                               (Some (wsRequest r payload)) (wsTimeout r)] in
            (exists e, Upgrade r (wsHdr r) = Some e
                       /\ ws_trace w = t1 ++ logError e /\ ws_relaying w = false)
            \/ (Upgrade r (wsHdr r) = None
                /\ ((exists e,
                        Stream (Name srv) ep (wsContentType r) (wsTimeout r) = Some e
                        /\ ws_trace w = t2 ++ logError e ++ [AConnClose]
                        /\ ws_relaying w = false)
                    \/ (Stream (Name srv) ep (wsContentType r) (wsTimeout r) = None
                        /\ ((exists e,
                                Send (wsRequest r payload) = Some e
                                /\ ws_trace w
                                   = t2 ++ [ASend (wsRequest r payload)]
                                     ++ logError e ++ [AConnClose]
                                /\ ws_relaying w = false)
                            \/ (Send (wsRequest r payload) = None
                                /\ ws_trace w
                                   = t2 ++ [ASend (wsRequest r payload); AGoWriteLoop]
                                /\ ws_relaying w = true)))))).
Proof.
  intros w ep. subst w. unfold serveWebsocket.
  fold (wsTimeout r). fold ep.
  destruct (requestPayload r) as [[payload|err] pool].
  2:{ left. exists err, pool. auto. }
  right. exists payload, pool. split; [reflexivity|]. cbv zeta.
  destruct (Upgrade r (wsHdr r)) as [e|]; [left; eauto|].
  right. split; [reflexivity|].
  unfold wsContentType, wsRequest.
  destruct (String.eqb (contentType r) "application/json");
    destruct (Stream _ _ _ _) as [e|]; [left; eauto| |left; eauto|];
    right; (split; [reflexivity|]);
    match goal with |- context [Send ?m] => destruct (Send m) as [e|] end;
    [left; eauto|right; auto|left; eauto|right; auto].
Qed.

(** Membership in a trace, decided piece by piece. *)
Ltac in_trace H :=
  repeat first
    [ rewrite in_app_iff in H
    | match type of H with
      | False => contradiction
      | _ \/ _ => destruct H as [H|H]
      end
    | apply in_pool_inv in H; destruct H as [? H]
    | apply in_log_inv in H
    | progress simpl in H ];
  try discriminate; try contradiction.

(** X14.  Once the upgrade has succeeded the connection is never lost: the
    opening closes it exactly when it does not go on to relay (the backend
    stream failed to open or refused the first frame), and when it does go
    on, its last act is to start [writeLoop] and the connection is left
    open for the relays.  Before a successful upgrade nothing is closed. *)
Theorem upgraded_connection_closed_or_relayed (r : Request) (srv : ApiService) :
  let w := serveWebsocket r srv in
  (In AConnClose (ws_trace w)
   <-> (exists payload pool, requestPayload r = (Ok payload, pool))
       /\ Upgrade r (wsHdr r) = None /\ ws_relaying w = false)
  /\ (ws_relaying w = true ->
      exists t, ws_trace w = t ++ [AGoWriteLoop] /\ ~ In AGoWriteLoop t)
  /\ (ws_relaying w = false -> ~ In AGoWriteLoop (ws_trace w)).
Proof.
  intros w.
  destruct (serveWebsocket_cases r srv)
    as [(e & pool & Hp & Ht & Hr)
       |(payload & pool & Hp & [(e & Hu & Ht & Hr)
                               |(Hu & [(e & Hs & Ht & Hr)
                                      |(Hs & [(e & Hd & Ht & Hr)
                                             |(Hd & Ht & Hr)])])])];
    fold w in Ht, Hr; rewrite Ht, Hr; cbv zeta.
  - split; [split|split].
    + intros H. in_trace H.
    + intros ((p & q & Hp') & _). congruence.
    + discriminate.
    + intros _ H. in_trace H.
  - split; [split|split].
    + intros H. in_trace H.
    + intros (_ & Hu' & _). congruence.
    + discriminate.
    + intros _ H. in_trace H.
  - split; [split|split].
    + intros _. eauto 6.
    + intros _. rewrite !in_app_iff. simpl. auto.
    + discriminate.
    + intros _ H. in_trace H.
  - split; [split|split].
    + intros _. eauto 6.
    + intros _. rewrite !in_app_iff. simpl. auto 6.
    + discriminate.
    + intros _ H. in_trace H.
  - split; [split|split].
    + intros H. in_trace H.
    + intros (_ & _ & ?). discriminate.
    + intros _.
      exists ((map APool pool ++ [AUpgrade (wsHdr r)])
              ++ [AStream (Name srv) (api_ep_Name (SrvEndpoint srv))
                    (wsContentType r) (Some (wsRequest r payload)) (wsTimeout r)]
              ++ [ASend (wsRequest r payload)]).
      split; [now rewrite <- !app_assoc|].
      intros H. in_trace H.
    + discriminate.
Qed.

(** X15.  The stages run in order and each only after the one before has
    succeeded: the upgrade is attempted only after the payload has been
    extracted without error, the backend stream is opened only after the
    upgrade has succeeded, and a frame is sent only on an opened stream;
    that frame is the request the stream was opened with. *)
Theorem bridge_stages_in_order (r : Request) (srv : ApiService) :
  let w := serveWebsocket r srv in
  (forall hdr, In (AUpgrade hdr) (ws_trace w) ->
               hdr = wsHdr r /\ exists payload pool, requestPayload r = (Ok payload, pool))
  /\ (forall svc ep ct req t, In (AStream svc ep ct req t) (ws_trace w) ->
                              Upgrade r (wsHdr r) = None)
  /\ (forall m, In (ASend m) (ws_trace w) ->
                Stream (Name srv) (api_ep_Name (SrvEndpoint srv))
                       (wsContentType r) (wsTimeout r) = None
                /\ In (AStream (Name srv) (api_ep_Name (SrvEndpoint srv))
                         (wsContentType r) (Some m) (wsTimeout r)) (ws_trace w)).
Proof.
  intros w.
  destruct (serveWebsocket_cases r srv)
    as [(e & pool & Hp & Ht & Hr)
       |(payload & pool & Hp & [(e & Hu & Ht & Hr)
                               |(Hu & [(e & Hs & Ht & Hr)
                                      |(Hs & [(e & Hd & Ht & Hr)
                                             |(Hd & Ht & Hr)])])])];
    fold w in Ht; rewrite Ht; cbv zeta;
    (split;
     [ intros hdr H; in_trace H; inversion H; subst; eauto
     | split;
       [ intros svc ep ct req t H; in_trace H; assumption
       | intros m H; in_trace H; inversion H; subst;
         split; try assumption; rewrite !in_app_iff; simpl; auto 8 ] ]).
Qed.

(** X16.  The backend request of a bridge: the declared content type is
    never empty (an absent one is declared [application/json], any other is
    passed on as it is, supported or not); the payload is wrapped as a raw
    JSON message exactly when the stripped content type is
    [application/json] and as a frame otherwise, so a request without
    content type is declared [application/json] but sent as a frame; and
    the timeout is what the [Timeout] header with [s] appended parses to,
    none when the header is absent or does not parse. *)
Theorem bridge_backend_request (r : Request) (srv : ApiService)
    (svc ep ct : string) (req : option StreamMsg) (t : option Z) :
  In (AStream svc ep ct req t) (ws_trace (serveWebsocket r srv)) ->
  svc = Name srv /\ ep = api_ep_Name (SrvEndpoint srv)
  /\ ct <> EmptyString
  /\ (contentType r <> EmptyString -> ct = contentType r)
  /\ (contentType r = EmptyString -> ct = "application/json")
  /\ (exists payload pool,
         requestPayload r = (Ok payload, pool)
         /\ req = Some (if String.eqb (contentType r) "application/json"
                        then RawMessage payload else Frame payload))
  /\ t = (if String.eqb (Get (Header r) "Timeout") EmptyString then None
          else ParseDuration (Get (Header r) "Timeout" +:+ "s")).
Proof.
  intros Hin.
  assert (Hct : wsContentType r <> EmptyString
                /\ (contentType r <> EmptyString -> wsContentType r = contentType r)
                /\ (contentType r = EmptyString -> wsContentType r = "application/json")).
  { unfold wsContentType.
    destruct (String.eqb (contentType r) EmptyString) eqn:Hc.
    - apply String.eqb_eq in Hc. repeat split; try discriminate; congruence.
    - apply String.eqb_neq in Hc. repeat split; try assumption; congruence. }
  assert (Ht : wsTimeout r
               = (if String.eqb (Get (Header r) "Timeout") EmptyString then None
                  else ParseDuration (Get (Header r) "Timeout" +:+ "s"))).
  { unfold wsTimeout. now destruct (String.eqb _ _). }
  destruct Hct as (Hc1 & Hc2 & Hc3).
  destruct (serveWebsocket_cases r srv)
    as [(e & pool & Hp & Htr & Hr)
       |(payload & pool & Hp & [(e & Hu & Htr & Hr)
                               |(Hu & [(e & Hs & Htr & Hr)
                                      |(Hs & [(e & Hd & Htr & Hr)
                                             |(Hd & Htr & Hr)])])])];
    rewrite Htr in Hin; cbv zeta in Hin; in_trace Hin;
    inversion Hin; subst; repeat split; auto;
    exists payload, pool; split; auto.
Qed.

End Opening.

Lemma upgraded_connection_closed_or_relayed_witness :
  let r := mkRequest "GET" (("Content-Type", ["application/json"]) :: wsHeaders)
             EmptyString [] in
  exists t, ws_trace (@serveWebsocket plainExternals r streamingService)
            = t ++ [AGoWriteLoop] /\ ~ In AGoWriteLoop t.
Proof.
  intros r.
  apply (proj1 (proj2 (@upgraded_connection_closed_or_relayed
                         plainExternals r streamingService))).
  reflexivity.
Defined.

Lemma bridge_stages_in_order_witness :
  let r := mkRequest "GET" (("Content-Type", ["application/json"]) :: wsHeaders)
             EmptyString [] in
  @Stream plainExternals "greeter" "Greeter.Stream"
    (wsContentType r) (@wsTimeout plainExternals r) = None
  /\ In (AStream "greeter" "Greeter.Stream" (wsContentType r)
           (Some (RawMessage [])) (@wsTimeout plainExternals r))
        (ws_trace (@serveWebsocket plainExternals r streamingService)).
Proof.
  intros r.
  apply (proj2 (proj2 (@bridge_stages_in_order plainExternals r streamingService))
           (RawMessage [])).
  vm_compute. auto.
Defined.

Lemma bridge_backend_request_witness :
  let r := mkRequest "GET" wsHeaders EmptyString [] in
  contentType r = EmptyString
  /\ exists payload pool,
       @requestPayload plainExternals r = (Ok payload, pool)
       /\ Some (Frame []) = Some (if String.eqb (contentType r) "application/json"
                                  then RawMessage payload else Frame payload).
Proof.
  intros r. split; [reflexivity|].
  destruct (@bridge_backend_request plainExternals r streamingService
              "greeter" "Greeter.Stream" "application/json" (Some (Frame [])) None)
    as (_ & _ & _ & _ & _ & H & _); [|exact H].
  vm_compute. auto.
Defined.

(** ** The receive loop and the session *)

Lemma step_op (s : Session) (e : Event) : op (step s e) = op s.
Proof.
  destruct e; simpl; auto.
  - destruct (up_pc (up s)); simpl; auto. destruct (conn_in s); simpl; auto.
  - destruct (down_pc (down s)); simpl; auto. destruct (rsp_in s); simpl; auto.
Qed.

Lemma run_op (evs : list Event) (s : Session) : op (run evs s) = op s.
Proof.
  revert s. induction evs as [|e evs IH]; intros s; simpl; [reflexivity|].
  now rewrite IH, step_op.
Qed.

Lemma step_connClosedOnce (s : Session) (e : Event) :
  connClosedOnce (down s) -> connClosedOnce (down (step s e)).
Proof.
  unfold connClosedOnce. intros Hc. destruct e; simpl; try assumption.
  - destruct (up_pc (up s)); simpl; try assumption.
    destruct (conn_in s); simpl; assumption.
  - destruct (down_pc (down s)) eqn:Hpc; simpl; try (rewrite Hpc; assumption).
    + unfold down_select, down_return.
      destruct (req_done s || stream_done s); simpl; congruence.
    + destruct (rsp_in s) as [|x q]; simpl; [now rewrite Hpc|].
      unfold down_read, down_return. up_cases; simpl; congruence.
Qed.

Lemma run_connClosedOnce (evs : list Event) (s : Session) :
  connClosedOnce (down s) -> connClosedOnce (down (run evs s)).
Proof.
  revert s. induction evs as [|e evs IH]; intros s Hc; simpl; [assumption|].
  apply IH. now apply step_connClosedOnce.
Qed.

(** X17.  In every run of a session the deferred [conn.Close] of
    [serveWebsocket] has run exactly once if the receive loop has returned
    and not at all while it has not; when both relays have returned, the
    connection and the backend stream have each been closed exactly
    once. *)
Theorem connection_closed_once (on : bool) (o : OpCode) (evs : list Event) :
  let s := run evs (startSession on o) in
  (down_pc (down s) = Returned -> down_conn_closes (down s) = 1%nat)
  /\ (down_pc (down s) <> Returned -> down_conn_closes (down s) = 0%nat)
  /\ (down_pc (down s) = Returned -> up_pc (up s) = Returned ->
      down_conn_closes (down s) = 1%nat /\ up_closes (up s) = 1%nat).
Proof.
  intros s.
  assert (Hd : connClosedOnce (down s)) by (apply run_connClosedOnce; reflexivity).
  assert (Hu : closedOnce (up s)) by (apply run_closedOnce; reflexivity).
  unfold connClosedOnce in Hd. unfold closedOnce in Hu.
  repeat split.
  - intros Hpc. now rewrite Hpc in Hd.
  - intros Hpc. destruct (down_pc (down s)); congruence.
  - now rewrite H in Hd.
  - now rewrite H0 in Hu.
Qed.

Lemma connection_closed_once_witness :
  let s := run [ EvDown {| write_err := None; flush_err := None; close_err := None |};
                 EvReqCancel;
                 EvRsp (BChunk [x61]);
                 EvDown {| write_err := None; flush_err := None; close_err := None |};
                 EvDown {| write_err := None; flush_err := None; close_err := None |} ]
               (startSession true OpText) in
  down_conn_closes (down s) = 1%nat.
Proof.
  intros s.
  apply (proj1 (connection_closed_once true OpText _)). reflexivity.
Defined.

Lemma rspArrivals_snoc (evs : list Event) (e : Event) :
  rspArrivals (evs ++ [e])
  = rspArrivals evs ++ match e with EvRsp x => [x] | _ => [] end.
Proof. unfold rspArrivals. rewrite flat_map_app. simpl. now rewrite app_nil_r. Qed.

Lemma chunks_snoc (xs : list RspRead) (x : RspRead) :
  chunks (xs ++ [x]) = chunks xs ++ chunks [x].
Proof. unfold chunks. now rewrite flat_map_app. Qed.

(** The chunks taken so far, each under the session's op, are what has
    been written, up to the chunks lost to the failure that ended the
    loop. *)
Lemma step_written (s : Session) (e : Event) (taken : list RspRead)
    (lost : list (OpCode * bytes)) :
  map (pair (op s)) (chunks taken) = down_written (down s) ++ lost ->
  (down_pc (down s) <> Returned -> lost = []) ->
  exists taken' lost',
    taken' ++ rsp_in (step s e)
    = (taken ++ rsp_in s) ++ match e with EvRsp x => [x] | _ => [] end
    /\ map (pair (op s)) (chunks taken')
       = down_written (down (step s e)) ++ lost'
    /\ (down_pc (down (step s e)) <> Returned -> lost' = []).
Proof.
  intros Hw Hl.
  destruct e; simpl;
    try (exists taken, lost; rewrite ?app_nil_r; now auto).
  - exists taken, lost. rewrite app_assoc. auto.
  - destruct (up_pc (up s)); simpl;
      try (exists taken, lost; rewrite ?app_nil_r; now auto).
    destruct (conn_in s); simpl; exists taken, lost; rewrite ?app_nil_r; auto.
  - destruct (down_pc (down s)) eqn:Hpc; simpl.
    + exists taken, lost. rewrite app_nil_r. split; [reflexivity|].
      unfold down_select, down_return.
      destruct (req_done s || stream_done s); simpl; split; auto;
        intros _; apply Hl; rewrite Hpc; discriminate.
    + assert (Hnil : lost = []) by (apply Hl; discriminate). subst lost.
      rewrite app_nil_r in Hw.
      destruct (rsp_in s) as [|x q] eqn:Hq; simpl.
      * exists taken, []. rewrite Hq, !app_nil_r, Hpc. auto.
      * unfold down_read, down_return.
        destruct x as [buf|msg].
        -- destruct (write_err io) as [we|]; simpl.
           ++ exists (taken ++ [BChunk buf]), [(op s, buf)].
              rewrite chunks_snoc, map_app, Hw, <- !app_assoc, app_nil_r.
              repeat split; auto. intros Hn. now contradiction Hn.
           ++ destruct (flush_err io) as [fe|]; simpl;
                exists (taken ++ [BChunk buf]), [];
                rewrite chunks_snoc, map_app, Hw, <- !app_assoc, !app_nil_r;
                repeat split; auto.
        -- exists (taken ++ [BErr msg]), [].
           rewrite chunks_snoc, map_app, Hw, <- !app_assoc, !app_nil_r.
           destruct (Contains msg "context canceled"); simpl; repeat split; auto.
    + exists taken, lost. rewrite app_nil_r, Hpc. auto.
Qed.

(** X18.  In every run the messages the receive loop has written to the
    connection are, in order, the chunks of a prefix of what the response
    channel delivered, each chunk as one message with its bytes unchanged
    under the session's framing op; while the loop has not returned, every
    chunk it has taken has been written; what the channel delivered and
    the loop has not taken is still waiting, in order. *)
Theorem downstream_writes_in_order (on : bool) (o : OpCode) (evs : list Event) :
  let s := run evs (startSession on o) in
  exists taken lost,
    rspArrivals evs = taken ++ rsp_in s
    /\ map (pair o) (chunks taken) = down_written (down s) ++ lost
    /\ (down_pc (down s) <> Returned -> lost = []).
Proof.
  induction evs as [|e evs IH] using rev_ind.
  - exists [], []. simpl. auto.
  - cbv zeta in *. destruct IH as (taken & lost & Ha & Hw & Hl).
    rewrite run_snoc, rspArrivals_snoc.
    assert (Hop : op (run evs (startSession on o)) = o) by now rewrite run_op.
    assert (Hw' : map (pair (op (run evs (startSession on o)))) (chunks taken)
                  = down_written (down (run evs (startSession on o))) ++ lost)
      by (rewrite Hop; exact Hw).
    destruct (step_written _ e taken lost Hw' Hl) as (taken' & lost' & H1 & H2 & H3).
    exists taken', lost'. rewrite Hop in H2. rewrite H1, Ha. auto.
Qed.

Lemma downstream_writes_in_order_witness :
  let s := run [ EvRsp (BChunk [x61]); EvDown goodIO; EvDown goodIO;
                 EvRsp (BChunk [x62]); EvDown goodIO; EvDown goodIO ]
               (startSession true OpBinary) in
  exists taken,
    [BChunk [x61]; BChunk [x62]] = taken ++ rsp_in s
    /\ map (pair OpBinary) (chunks taken) = down_written (down s).
Proof.
  intros s.
  destruct (downstream_writes_in_order true OpBinary
              [ EvRsp (BChunk [x61]); EvDown goodIO; EvDown goodIO;
                EvRsp (BChunk [x62]); EvDown goodIO; EvDown goodIO ])
    as (taken & lost & Ha & Hw & Hl).
  exists taken. split; [exact Ha|].
  rewrite Hl in Hw by (vm_compute; discriminate).
  rewrite app_nil_r in Hw. exact Hw.
Defined.



Lemma step_upEq (s t : Session) (e : Event) :
  upEq s t -> upEq (step s e) (if upEvent e then step t e else t).
Proof.
  unfold upEq. intros (Hu & Hc & Hd & Hl).
  destruct e; simpl.
  - repeat split; auto.
  - repeat split; auto.
  - rewrite Hc. repeat split; auto.
  - repeat split; auto.
  - rewrite <- Hu, <- Hc, <- Hd, <- Hl.
    destruct (up_pc (up s)); simpl; [repeat split; auto| |repeat split; auto].
    destruct (conn_in s) eqn:Hq; simpl; repeat split; auto; congruence.
  - destruct (down_pc (down s)); simpl; [repeat split; auto| |repeat split; auto].
    destruct (rsp_in s); simpl; repeat split; auto.
Qed.

Lemma run_upEq (evs : list Event) (s t : Session) :
  upEq s t -> upEq (run evs s) (run (List.filter upEvent evs) t).
Proof.
  revert s t. induction evs as [|e evs IH]; intros s t H; simpl; [assumption|].
  pose proof (step_upEq s t e H) as Hs.
  destruct (upEvent e); simpl; now apply IH.
Qed.



(** ** What the relays log *)

Lemma logged_length (on : bool) (e : error) (log : list error) :
  (length (logged on e log) <= S (length log))%nat
  /\ (on = false -> logged on e log = log).
Proof.
  unfold logged. destruct on; simpl.
  - rewrite length_app. simpl. split; [lia|discriminate].
  - split; [lia|reflexivity].
Qed.

Ltac quiet_goal Hoff :=
  first
    [ assumption
    | intros Hne; first [ exfalso; apply Hne; reflexivity | reflexivity ]
    | unfold logged; destruct (log_on _); simpl; lia
    | intros Hoff'; destruct (Hoff Hoff'); split;
      first [ assumption | rewrite Hoff'; reflexivity | reflexivity ] ].

Lemma step_quiet (s : Session) (e : Event) :
  quietWhileRunning s -> quietWhileRunning (step s e).
Proof.
  unfold quietWhileRunning. intros (Hu & Hul & Hd & Hdl & Hoff).
  destruct e; simpl; try (repeat apply conj; assumption).
  - destruct (up_pc (up s)) eqn:Hpc; simpl;
      try (rewrite ?Hpc; repeat apply conj; assumption).
    + assert (Hnil : up_log (up s) = []) by (apply Hu; discriminate).
      unfold up_select, up_return.
      destruct (stream_done s); simpl; rewrite ?Hnil; repeat apply conj;
        quiet_goal Hoff.
    + assert (Hnil : up_log (up s) = []) by (apply Hu; discriminate).
      destruct (conn_in s) as [|x q] eqn:Hq; simpl;
        [rewrite ?Hpc; repeat apply conj; assumption|].
      unfold up_read, up_return.
      up_cases; simpl; rewrite ?Hnil; repeat apply conj; quiet_goal Hoff.
  - destruct (down_pc (down s)) eqn:Hpc; simpl;
      try (rewrite ?Hpc; repeat apply conj; assumption).
    + assert (Hnil : down_log (down s) = []) by (apply Hd; discriminate).
      unfold down_select, down_return.
      destruct (req_done s || stream_done s); simpl; rewrite ?Hnil;
        up_cases; repeat apply conj; quiet_goal Hoff.
    + assert (Hnil : down_log (down s) = []) by (apply Hd; discriminate).
      destruct (rsp_in s) as [|x q] eqn:Hq; simpl;
        [rewrite ?Hpc; repeat apply conj; assumption|].
      unfold down_read, down_return.
      up_cases; simpl; rewrite ?Hnil; repeat apply conj; quiet_goal Hoff.
Qed.

Lemma run_quiet (evs : list Event) (s : Session) :
  quietWhileRunning s -> quietWhileRunning (run evs s).
Proof.
  revert s. induction evs as [|e evs IH]; intros s H; simpl; [assumption|].
  apply IH. now apply step_quiet.
Qed.

Lemma step_log_on (s : Session) (e : Event) : log_on (step s e) = log_on s.
Proof.
  destruct e; simpl; auto.
  - destruct (up_pc (up s)); simpl; auto. destruct (conn_in s); simpl; auto.
  - destruct (down_pc (down s)); simpl; auto. destruct (rsp_in s); simpl; auto.
Qed.

Lemma run_log_on (evs : list Event) (s : Session) : log_on (run evs s) = log_on s.
Proof.
  revert s. induction evs as [|e evs IH]; intros s; simpl; [reflexivity|].
  now rewrite IH, step_log_on.
Qed.

(** X21.  In every run of a session a relay logs nothing while it is
    running: the upstream relay's log holds at most one error and the
    receive loop's at most two (its own and the one of closing the
    connection), written when the relay returns; with error logging off
    both stay empty. *)
Theorem relays_log_only_on_return (on : bool) (o : OpCode) (evs : list Event) :
  let s := run evs (startSession on o) in
  (up_pc (up s) <> Returned -> up_log (up s) = [])
  /\ (length (up_log (up s)) <= 1)%nat
  /\ (down_pc (down s) <> Returned -> down_log (down s) = [])
  /\ (length (down_log (down s)) <= 2)%nat
  /\ (on = false -> up_log (up s) = [] /\ down_log (down s) = []).
Proof.
  intros s.
  assert (H : quietWhileRunning s).
  { apply run_quiet. unfold quietWhileRunning. simpl.
    repeat apply conj; auto; lia. }
  assert (Hon : log_on s = on) by (subst s; now rewrite run_log_on).
  unfold quietWhileRunning in H. rewrite Hon in H. exact H.
Qed.

Lemma relays_log_only_on_return_witness :
  let io := {| write_err := None; flush_err := None;
               close_err := Some (ErrorString "close failed") |} in
  let s := run [ EvUp None; EvConn (CErr (ErrorString "broken pipe")); EvUp None;
                 EvStreamCancel; EvDown io ] (startSession false OpText) in
  up_log (up s) = [] /\ down_log (down s) = [].
Proof.
  intros io s.
  apply (proj2 (proj2 (proj2 (proj2 (relays_log_only_on_return false OpText _))))).
  reflexivity.
Defined.

(** X22.  How a relay ends on a failure.  Upstream: a read error that is
    not a close with code 1000, 1001 or 1005 (a close with any other code
    included) is logged, and so is a failed send, whose frame has been
    handed to [Send]; either ends the relay and closes the stream.
    Downstream: a backend read error whose message contains [context
    canceled] is not logged, any other is; a failed write logs and leaves
    the chunk unwritten, a failed flush logs after the write; each ends
    the loop and closes the connection, logging a close error last. *)
Theorem relay_failures (s : Session) :
  (forall e rest send,
      up_pc (up s) = InRead -> conn_in s = CErr e :: rest ->
      (forall code reason, e = ClosedError code reason ->
                           code <> 1000 /\ code <> 1001 /\ code <> 1005) ->
      let s' := step s (EvUp send) in
      up_pc (up s') = Returned
      /\ up_log (up s') = logged (log_on s) e (up_log (up s))
      /\ up_sends (up s') = up_sends (up s)
      /\ up_closes (up s') = S (up_closes (up s)))
  /\ (forall buf o' rest e,
         up_pc (up s) = InRead -> conn_in s = CFrame buf o' :: rest ->
         isData o' = true ->
         let s' := step s (EvUp (Some e)) in
         up_pc (up s') = Returned
         /\ up_sends (up s') = up_sends (up s) ++ [Frame buf]
         /\ up_log (up s') = logged (log_on s) e (up_log (up s))
         /\ up_closes (up s') = S (up_closes (up s)))
  /\ (forall msg rest io,
         down_pc (down s) = InRead -> rsp_in s = BErr msg :: rest ->
         close_err io = None ->
         let s' := step s (EvDown io) in
         down_pc (down s') = Returned
         /\ down_conn_closes (down s') = S (down_conn_closes (down s))
         /\ down_log (down s')
            = if Contains msg "context canceled" then down_log (down s)
              else logged (log_on s) (ErrorString msg) (down_log (down s)))
  /\ (forall buf rest io,
         down_pc (down s) = InRead -> rsp_in s = BChunk buf :: rest ->
         (write_err io <> None \/ flush_err io <> None) ->
         let s' := step s (EvDown io) in
         down_pc (down s') = Returned
         /\ down_conn_closes (down s') = S (down_conn_closes (down s))
         /\ down_written (down s')
            = match write_err io with
              | Some _ => down_written (down s)
              | None => down_written (down s) ++ [(op s, buf)]
              end
         /\ exists e, (write_err io = Some e
                       \/ (write_err io = None /\ flush_err io = Some e))
                      /\ down_log (down s')
                         = match close_err io with
                           | Some ce => logged (log_on s) ce
                                          (logged (log_on s) e (down_log (down s)))
                           | None => logged (log_on s) e (down_log (down s))
                           end).
Proof.
  repeat apply conj.
  - intros e rest send Hpc Hq Hne. simpl. rewrite Hpc, Hq. simpl.
    unfold up_read, up_return.
    destruct e as [code reason| |]; simpl; auto.
    destruct (Hne code reason eq_refl) as (H0 & H1 & H5).
    assert (Hb : benignClose code = false).
    { unfold benignClose, StatusGoingAway, StatusNormalClosure, StatusNoStatusRcvd.
      apply Z.eqb_neq in H0, H1, H5. now rewrite H0, H1, H5. }
    rewrite Hb. simpl. auto.
  - intros buf o' rest e Hpc Hq Hd. simpl. rewrite Hpc, Hq. simpl.
    unfold up_read, up_return. rewrite Hd. simpl. auto.
  - intros msg rest io Hpc Hq Hc. simpl. rewrite Hpc, Hq. simpl.
    unfold down_read, down_return. rewrite Hc.
    destruct (Contains msg "context canceled"); simpl; auto.
  - intros buf rest io Hpc Hq Hfail. simpl. rewrite Hpc, Hq. simpl.
    unfold down_read, down_return.
    destruct (write_err io) as [we|] eqn:Hw; simpl.
    + repeat split; auto. exists we. split; [auto|].
      now destruct (close_err io).
    + destruct (flush_err io) as [fe|] eqn:Hf; simpl.
      * repeat split; auto. exists fe. split; [auto|].
        now destruct (close_err io).
      * destruct Hfail as [H|H]; now contradiction H.
Qed.

Lemma relay_failures_witness :
  let s := run [ EvUp None; EvConn (CErr (ClosedError 1002 "protocol error")) ]
               (startSession true OpText) in
  up_log (up (step s (EvUp None)))
  = logged (log_on s) (ClosedError 1002 "protocol error") (up_log (up s)).
Proof.
  intros s.
  destruct (proj1 (relay_failures s) (ClosedError 1002 "protocol error") [] None)
    as (_ & H & _); [reflexivity | reflexivity | | exact H].
  intros code reason [= <- _]. repeat split; discriminate.
Defined.

(** ** The protocol header of the upgrade response *)

Lemma protoHdr_fold (proto : list string) (acc : gmap string (list string)) :
  fold_left
    (fun hdr p =>
       if String.eqb p "binary"
       then <["Sec-WebSocket-Protocol" := ["binary"]]> hdr
       else hdr)
    proto acc
  = if existsb (fun p => String.eqb p "binary") proto
    then <["Sec-WebSocket-Protocol" := ["binary"]]> acc
    else acc.
Proof.
  revert acc. induction proto as [|p ps IH]; intros acc; simpl; [reflexivity|].
  rewrite IH. destruct (String.eqb p "binary"); simpl; [|reflexivity].
  rewrite insert_insert_eq. now destruct (existsb _ ps).
Qed.



(** ** Form content types *)

(** X24.  The form arm is selected by the content type
    [application/www-x-form-urlencoded]: the payload is then the JSON
    object of the parsed form with the values of each field joined by
    commas, whatever the method, and no buffer is taken.  The standard
    form content type [application/x-www-form-urlencoded] does not select
    it: a POST with that content type has its raw body as payload. *)
Theorem form_payload {E : Externals} (r : Request) :
  let ct := Get (Header r) "Content-Type" in
  (Contains ct "application/json-rpc" = false ->
   Contains ct "application/proto-rpc" = false ->
   Contains ct "application/octet-stream" = false ->
   Contains ct "application/www-x-form-urlencoded" = true ->
   requestPayload r
   = (json_Marshal ((fun v => Join v ",") <$> ParseForm r), [])
   /\ forall k vs, ParseForm r !! k = Some vs ->
                   ((fun v => Join v ",") <$> ParseForm r) !! k
                   = Some (Join vs ","))
  /\ (ct = "application/x-www-form-urlencoded" ->
      Method r = "POST" ->
      body_limit (ReqBody r) = None ->
      requestPayload r = (Ok (body_data (ReqBody r)), [PoolGet; PoolPut])).
Proof.
  intros ct. split.
  - intros H1 H2 H3 H4. split.
    + unfold requestPayload. fold ct. now rewrite H1, H2, H3, H4.
    + intros k vs Hk. now rewrite lookup_fmap, Hk.
  - intros Hct Hm Hb.
    rewrite requestPayload_plain by (fold ct; rewrite Hct; reflexivity).
    rewrite Hm. simpl. unfold ReadFrom. now rewrite Hb.
Qed.

Lemma form_payload_witness :
  @requestPayload plainExternals
    (mkRequest "POST" [("Content-Type", ["application/x-www-form-urlencoded"])]
       EmptyString [x61; x3d; x31])
  = (Ok [x61; x3d; x31], [PoolGet; PoolPut]).
Proof.
  apply (proj2 (@form_payload plainExternals
                  (mkRequest "POST"
                     [("Content-Type", ["application/x-www-form-urlencoded"])]
                     EmptyString [x61; x3d; x31])));
    reflexivity.
Defined.

(** ** Delivery downstream *)

Lemma run_rsp_arrive (bufs : list bytes) (s : Session) :
  run (map (fun b => EvRsp (BChunk b)) bufs) s
  = with_down s (rsp_in s ++ map BChunk bufs) (down s).
Proof.
  revert s. induction bufs as [|b bs IH]; intros s; simpl.
  - rewrite app_nil_r. now destruct s.
  - rewrite IH. unfold with_down. simpl. now rewrite <- app_assoc.
Qed.

Lemma run_drain_down (bufs : list bytes) (s : Session) :
  down_pc (down s) = AtSelect ->
  req_done s = false -> stream_done s = false ->
  rsp_in s = map BChunk bufs ->
  let s' := run (twicePerChunk bufs) s in
  down_pc (down s') = AtSelect
  /\ rsp_in s' = []
  /\ down_written (down s') = down_written (down s) ++ map (pair (op s)) bufs
  /\ down_conn_closes (down s') = down_conn_closes (down s)
  /\ down_log (down s') = down_log (down s).
Proof.
  revert s. induction bufs as [|b bs IH]; intros s Hpc Hr Hs Hin; simpl.
  - rewrite app_nil_r. auto.
  - rewrite Hpc. simpl. unfold down_select. rewrite Hr, Hs. simpl.
    rewrite Hin. simpl.
    match goal with |- context [run _ ?t] => specialize (IH t) end.
    simpl in IH. destruct IH as (H1 & H2 & H3 & H4 & H5); auto.
    rewrite H1, H2, H3, H4, H5. rewrite <- app_assoc. auto.
Qed.

(** X25.  While neither context is done and the connection accepts every
    write and flush, chunks that arrive from the backend are all written
    to the connection, in order and under the session's op, once the
    receive loop has been scheduled twice per chunk; nothing is logged and
    the connection stays open. *)
Theorem downstream_delivers_all (on : bool) (o : OpCode) (bufs : list bytes) :
  let s := run (map (fun b => EvRsp (BChunk b)) bufs ++ twicePerChunk bufs)
               (startSession on o) in
  down_written (down s) = map (pair o) bufs
  /\ rsp_in s = []
  /\ down_pc (down s) = AtSelect
  /\ down_log (down s) = []
  /\ down_conn_closes (down s) = 0%nat.
Proof.
  cbv zeta.
  assert (Happ : forall a b t, run (a ++ b) t = run b (run a t))
    by (intros; unfold run; apply fold_left_app).
  rewrite Happ, run_rsp_arrive.
  pose proof (run_drain_down bufs
                (with_down (startSession on o)
                   (rsp_in (startSession on o) ++ map BChunk bufs)
                   (down (startSession on o)))) as Hd.
  cbv zeta in Hd.
  destruct Hd as (H1 & H2 & H3 & H4 & H5); try reflexivity.
  rewrite H1, H2, H3, H4, H5. auto.
Qed.
